(** * Epsilon-greedy A/B testing: a shallow embedding of [ab_testing.py]

    The two classes of the program, [RandomEvent] (one bandit arm) and
    [Experiment] (the epsilon-greedy loop), are embedded as records with
    their methods as functions on them.

    Modelling decisions.
    - Python floats are idealised as exact rationals ([Q]); equalities
      between computed reals are therefore stated up to [Qeq] ([==]).
      The idealisation leaves out the rounding of each operation (which can
      change a comparison that is decided by the last bits: whether a draw
      is below epsilon, which of two nearly equal estimates is the larger),
      underflow to zero, and the [OverflowError] of converting an integer
      beyond the float range. Where a property is about values rather than
      structure, it is stated for exact arithmetic or within bounds that
      exclude these effects.
    - For the running mean of [RandomEvent.update] rounding is modelled:
      [update_rnd rnd53] rounds each operation to 53 significant bits as
      binary64 does, and is checked against the floats of the kernel
      (module [Binary64]).
    - The counters ([N], [num_explored], [num_exploited], [num_optimal])
      start at zero and are only ever incremented: they are naturals.
      [iterations] is an integer the caller supplies: it is in [Z].
    - The two process-wide generators the program draws from, the [random]
      module ([random.random], [random.choice]) and numpy's global generator
      ([np.random.random]), are explicit states threaded through the code.
      Their implementation is left abstract (section variables).
    - Exceptions are values of [exn]; a method that may raise returns a
      [result]. [run] mutates its [Experiment] only inside the loop, so a
      [Raise] before the loop leaves the object as it was.
    - Printing and plotting at the end of [run] are presentation and are
      left out. *)

From Stdlib Require Import ZArith QArith Qround Qabs Qpower Lia Lqa Uint63 Floats.
From stdpp Require Import base list.

Local Open Scope Q_scope.

(** ** Exceptions *)

Inductive exn : Type :=
  | ValueError_argmax_empty        (* np.argmax of an empty sequence *)
  | ValueError_negative_dimensions (* np.zeros of a negative length *)
  | ZeroDivisionError              (* float division by zero *)
  | IndexError                     (* list index out of range *)
  | InvalidConfiguration.          (* the error the specification names for a
                                      malformed configuration; no statement of
                                      the source raises it *)

Inductive result (A : Type) : Type :=
  | Ok (a : A)
  | Raise (e : exn).

Arguments Ok {A} a.
Arguments Raise {A} e.

Definition bind {A B : Type} (m : result A) (k : A -> result B) : result B :=
  match m with
  | Ok a => k a
  | Raise e => Raise e
  end.

Notation "x <- m ;; k" := (bind m (fun x => k))
  (at level 100, m at next level, right associativity).

(** [for x in xs: st = body(x, st)], stopping at the first exception. *)
Fixpoint for_each {A St : Type} (body : A -> St -> result St)
    (xs : list A) (st : St) : result St :=
  match xs with
  | [] => Ok st
  | x :: xs' => st' <- body x st ;; for_each body xs' st'
  end.

(** ** Numbers *)

(** [x < y] on floats, as a boolean. *)
Definition Qltb (x y : Q) : bool := negb (Qle_bool y x).

(** A (numpy) boolean used as a number: [True] is 1 and [False] is 0. *)
Definition b2q (b : bool) : Q := if b then 1 else 0.

Definition of_nat (n : nat) : Q := inject_Z (Z.of_nat n).

Definition Qsum (l : list Q) : Q := foldr Qplus 0 l.

(** The arithmetic mean of a non-empty sequence. *)
Definition mean (l : list Q) : Q := Qsum l / of_nat (length l).

(** ** [np.argmax] on a one-dimensional sequence

    numpy scans from the left and keeps the position of the running
    maximum, replacing it only by a strictly greater element. *)
Fixpoint argmax_scan (best : Q) (best_i i : nat) (l : list Q) : nat :=
  match l with
  | [] => best_i
  | x :: l' =>
      if Qltb best x then argmax_scan x i (S i) l'
      else argmax_scan best best_i (S i) l'
  end.

Definition argmax (l : list Q) : result nat :=
  match l with
  | [] => Raise ValueError_argmax_empty
  | x :: l' => Ok (argmax_scan x 0%nat 1%nat l')
  end.

(** [i] is the position of the first maximum of [l]: no element is larger
    than [l[i]] and every element before it is strictly smaller. *)
Definition is_first_max (l : list Q) (i : nat) : Prop :=
  exists x, l !! i = Some x /\
    (forall j y, l !! j = Some y -> y <= x) /\
    (forall j y, (j < i)%nat -> l !! j = Some y -> y < x).

(** ** class RandomEvent *)

Record RandomEvent : Type := {
  winrate : Q;                 (* the true win rate *)
  estimate : Q;                (* estimated win rate *)
  N : nat;                     (* number of pulls *)
  history : list (nat * Q)     (* (N, estimate) after each update *)
}.

(** [RandomEvent.__init__] *)
Definition RandomEvent_init (w : Q) : RandomEvent :=
  {| winrate := w; estimate := 0; N := 0; history := [] |}.

(** [RandomEvent.update] *)
Definition update (res : Q) (self : RandomEvent) : RandomEvent :=
  let n := S (N self) in
  let est := estimate self + (res - estimate self) / of_nat n in
  {| winrate := winrate self;
     estimate := est;
     N := n;
     history := history self ++ [(n, est)] |}.

(** [update] called once per outcome, in order. *)
Definition feed (outcomes : list Q) (self : RandomEvent) : RandomEvent :=
  foldl (fun ev r => update r ev) self outcomes.

(** The history of an arm has one entry per pull, numbered from 1. *)
Definition history_numbered (ev : RandomEvent) : Prop :=
  length (history ev) = N ev /\
  forall k p, history ev !! k = Some p -> fst p = S k.

(** ** class Experiment *)

Record Experiment : Type := {
  probs : list Q;
  initial_epsilon : Q;
  iterations : Z;
  num_explored : nat;
  num_exploited : nat;
  num_optimal : nat
}.

(** [Experiment.__init__] *)
Definition Experiment_init (ps : list Q) (eps : Q) (iters : Z) : Experiment :=
  {| probs := ps; initial_epsilon := eps; iterations := iters;
     num_explored := 0; num_exploited := 0; num_optimal := 0 |}.

(** [Experiment.epsilon_func] *)
Definition epsilon_func (val : Q) (t : Z) : result Q :=
  let d := 0.01 * inject_Z t + 1 in
  if Qeq_bool d 0 then Raise ZeroDivisionError else Ok (val / d).

Definition incr_explored (e : Experiment) : Experiment :=
  {| probs := probs e; initial_epsilon := initial_epsilon e;
     iterations := iterations e;
     num_explored := S (num_explored e);
     num_exploited := num_exploited e;
     num_optimal := num_optimal e |}.

Definition incr_exploited (e : Experiment) : Experiment :=
  {| probs := probs e; initial_epsilon := initial_epsilon e;
     iterations := iterations e;
     num_explored := num_explored e;
     num_exploited := S (num_exploited e);
     num_optimal := num_optimal e |}.

Definition incr_optimal (e : Experiment) : Experiment :=
  {| probs := probs e; initial_epsilon := initial_epsilon e;
     iterations := iterations e;
     num_explored := num_explored e;
     num_exploited := num_exploited e;
     num_optimal := S (num_optimal e) |}.

(** The counters after an iteration that chose arm [k] ([oi] being the
    optimal index): lines 95 to 103 of the source, seen from the counters. *)
Definition tally (explored : bool) (k oi : nat) (e : Experiment) : Experiment :=
  let e1 := if explored then incr_explored e else incr_exploited e in
  if Nat.eqb k oi then incr_optimal e1 else e1.

(** [range(n)]; empty when [n] is not positive. *)
Definition range (n : Z) : list nat := seq 0 (Z.to_nat n).

(** [np.zeros(n)] *)
Definition np_zeros (n : Z) : result (list Q) :=
  if (n <? 0)%Z then Raise ValueError_negative_dimensions
  else Ok (replicate (Z.to_nat n) 0).

Section Bandit.

(** The state of the [random] module and of numpy's global generator. *)
Variables PyRng NpRng : Type.
(** [random.random()] *)
Variable random_random : PyRng -> Q * PyRng.
(** [random.choice(range(n))] for [n > 0] *)
Variable random_choice : nat -> PyRng -> nat * PyRng.
(** [np.random.random()] *)
Variable np_random_random : NpRng -> Q * NpRng.

(** [RandomEvent.pull]: the receiver is returned along with the outcome,
    so that what the method does to it is visible. *)
Definition pull (self : RandomEvent) (g : NpRng) : bool * RandomEvent * NpRng :=
  let (u, g') := np_random_random g in
  (Qltb u (winrate self), self, g').

(** The variables of [run]: the experiment itself, the locals [events]
    and [results], and the two generators. *)
Record RunState : Type := {
  self : Experiment;
  optimal_index : nat;
  events : list RandomEvent;
  results : list Q;
  py : PyRng;
  np : NpRng
}.

(** The choice of an arm in one iteration: the index, whether it was an
    exploration, and the generator afterwards. *)
Definition select (epsilon : Q) (evs : list RandomEvent) (g : PyRng)
  : result (nat * bool * PyRng) :=
  let (u, g1) := random_random g in
  if Qltb u epsilon then
    let (k, g2) := random_choice (length evs) g1 in
    Ok (k, true, g2)
  else
    k <- argmax (map estimate evs) ;;
    Ok (k, false, g1).

(** The body of the loop of [run], at iteration [t]. *)
Definition body (t : nat) (st : RunState) : result RunState :=
  epsilon <- epsilon_func (initial_epsilon (self st)) (Z.of_nat t) ;;
  sel <- select epsilon (events st) (py st) ;;
  let '(selected_event, explored, g) := sel in
  let self1 :=
    if explored then incr_explored (self st) else incr_exploited (self st) in
  let self2 :=
    if Nat.eqb selected_event (optimal_index st) then incr_optimal self1
    else self1 in
  match events st !! selected_event with
  | None => Raise IndexError
  | Some ev =>
      let '(res, ev1, npg) := pull ev (np st) in
      let results' := <[t := b2q res]> (results st) in
      let ev2 := update (b2q res) ev1 in
      Ok {| self := self2;
            optimal_index := optimal_index st;
            events := <[selected_event := ev2]> (events st);
            results := results';
            py := g;
            np := npg |}
  end.

(** [Experiment.run] *)
Definition run (e : Experiment) (g : PyRng) (npg : NpRng) : result RunState :=
  oi <- argmax (probs e) ;;
  let evs := map RandomEvent_init (probs e) in
  res <- np_zeros (iterations e) ;;
  for_each body (range (iterations e))
    {| self := e; optimal_index := oi; events := evs; results := res;
       py := g; np := npg |}.

(** [run] stopped when its loop is about to start iteration [t]: the state
    iteration [t] of [run] works on. *)
Definition run_upto (t : nat) (e : Experiment) (g : PyRng) (npg : NpRng)
  : result RunState :=
  oi <- argmax (probs e) ;;
  let evs := map RandomEvent_init (probs e) in
  res <- np_zeros (iterations e) ;;
  for_each body (seq 0 t)
    {| self := e; optimal_index := oi; events := evs; results := res;
       py := g; np := npg |}.

(** The two methods a caller can invoke on an arm, and a sequence of such
    calls on one arm. *)
Inductive ArmCall : Type :=
  | CallPull
  | CallUpdate (res : Q).

Definition arm_call (st : RandomEvent * NpRng) (c : ArmCall)
  : RandomEvent * NpRng :=
  match c with
  | CallPull => let '(_, ev, g) := pull (fst st) (snd st) in (ev, g)
  | CallUpdate res => (update res (fst st), snd st)
  end.

(** Two states of [run] that differ at most in the counters, each counter
    having advanced by the same amount from its value in [c1],
    respectively [c2]. *)
Definition run_agree (c1 c2 : Experiment) (s1 s2 : RunState) : Prop :=
  probs (self s1) = probs (self s2) /\
  initial_epsilon (self s1) = initial_epsilon (self s2) /\
  iterations (self s1) = iterations (self s2) /\
  optimal_index s1 = optimal_index s2 /\
  events s1 = events s2 /\
  results s1 = results s2 /\
  py s1 = py s2 /\
  np s1 = np s2 /\
  (num_explored (self s1) + num_explored c2
   = num_explored (self s2) + num_explored c1)%nat /\
  (num_exploited (self s1) + num_exploited c2
   = num_exploited (self s2) + num_exploited c1)%nat /\
  (num_optimal (self s1) + num_optimal c2
   = num_optimal (self s2) + num_optimal c1)%nat.

Definition result_agree (c1 c2 : Experiment) (r1 r2 : result RunState)
  : Prop :=
  match r1, r2 with
  | Ok s1, Ok s2 => run_agree c1 c2 s1 s2
  | Raise x1, Raise x2 => x1 = x2
  | _, _ => False
  end.

End Bandit.

Arguments self {PyRng NpRng} _.
Arguments optimal_index {PyRng NpRng} _.
Arguments events {PyRng NpRng} _.
Arguments results {PyRng NpRng} _.
Arguments py {PyRng NpRng} _.
Arguments np {PyRng NpRng} _.

(** ** A scripted generator

    A generator whose state is the list of raw values it will still
    produce (zero once the script is exhausted); it is used to run the
    model on concrete inputs. *)

Definition script : Type := list nat.

Definition next (s : script) : nat * script :=
  match s with
  | [] => (0%nat, [])
  | k :: s' => (k, s')
  end.

(** A uniform draw in hundredths: [k] stands for [(k mod 100) / 100]. *)
Definition script_uniform (s : script) : Q * script :=
  let (k, s') := next s in (Z.of_nat (k mod 100) # 100, s').

Definition script_choice (n : nat) (s : script) : nat * script :=
  let (k, s') := next s in ((k mod n)%nat, s').

Definition script_run (e : Experiment) (g npg : script)
  : result (RunState script script) :=
  run script script script_uniform script_choice script_uniform e g npg.

Definition script_run_upto (t : nat) (e : Experiment) (g npg : script)
  : result (RunState script script) :=
  run_upto script script script_uniform script_choice script_uniform t e g npg.

(** The example of the source, [probs = [0.2, 0.5, 0.75]] and
    [initial_epsilon = 0.1], cut down to four iterations, with scripts for
    the two generators: the run explores at iterations 0 and 3 and exploits
    at 1 and 2. *)
Definition demo : Experiment := Experiment_init [0.2; 0.5; 0.75] 0.1 4.
Definition demo_py : script := [5; 2; 50; 60; 3; 1]%nat.
Definition demo_np : script := [10; 60; 70; 10]%nat.

(** The state in which that run ends. *)
Definition demo_out : RunState script script :=
  Eval vm_compute in
    match script_run demo demo_py demo_np with
    | Ok out => out
    | Raise _ =>
        {| self := demo; optimal_index := 0; events := []; results := [];
           py := []; np := [] |}
    end.

(** The states in which iteration 1 of that run starts and ends. *)
Definition demo_st1 : RunState script script :=
  Eval vm_compute in
    match script_run_upto 1 demo demo_py demo_np with
    | Ok st => st
    | Raise _ => demo_out
    end.

Definition demo_st2 : RunState script script :=
  Eval vm_compute in
    match script_run_upto 2 demo demo_py demo_np with
    | Ok st => st
    | Raise _ => demo_out
    end.

(** The same experiment with [initial_epsilon = 0]. *)
Definition demo_greedy : Experiment := Experiment_init [0.2; 0.5; 0.75] 0 4.

Definition demo_greedy_out : RunState script script :=
  Eval vm_compute in
    match script_run demo_greedy demo_py demo_np with
    | Ok out => out
    | Raise _ =>
        {| self := demo_greedy; optimal_index := 0; events := [];
           results := []; py := []; np := [] |}
    end.

(** ** [RandomEvent.update] in binary64

    The same method with the arithmetic Python carries out: IEEE 754
    binary64 with rounding to nearest. Only the estimate is concerned;
    [of_nat] is the conversion of the [int] counter to a [float], exact
    below [2^53]. *)
Module Binary64.

Definition of_nat (n : nat) : float :=
  PrimFloat.of_uint63 (Uint63.of_Z (Z.of_nat n)).

Record RandomEvent : Type := {
  winrate : float;
  estimate : float;
  N : nat;
  history : list (nat * float)
}.

Definition RandomEvent_init (w : float) : RandomEvent :=
  {| winrate := w; estimate := 0%float; N := 0; history := [] |}.

Definition update (res : float) (self : RandomEvent) : RandomEvent :=
  let n := S (N self) in
  let est := (estimate self + (res - estimate self) / of_nat n)%float in
  {| winrate := winrate self;
     estimate := est;
     N := n;
     history := history self ++ [(n, est)] |}.

Definition feed (outcomes : list float) (self : RandomEvent) : RandomEvent :=
  foldl (fun ev r => update r ev) self outcomes.

Definition mean (l : list float) : float :=
  (foldl PrimFloat.add 0%float l / of_nat (length l))%float.

End Binary64.

(** ** Binary64 arithmetic on rationals

    Every binary64 float is a rational, and an operation of the program is
    the exact operation followed by rounding to the nearest float, ties to
    even. [rnd53] is that rounding for a float with 53 significant bits and
    no bound on the exponent: it is the rounding of binary64 wherever
    neither overflow nor underflow occurs, which is the case for the
    estimate of an arm (all values are 0 or lie between [2^-53 / N] and 1
    in magnitude). [update_rnd] is [RandomEvent.update] with each of its
    three operations rounded; the conversion of [N] to a float is exact
    below [2^53]. *)

(** The nearest integer, the even one of two at the same distance. *)
Definition round_half_even (x : Q) : Z :=
  let f := Qfloor x in
  match Qcompare (x - inject_Z f) (1 # 2) with
  | Lt => f
  | Gt => (f + 1)%Z
  | Eq => if Z.even f then f else (f + 1)%Z
  end.

(** For [x > 0], the integer [c] with [2^c <= x < 2^(c+1)]. *)
Definition ilog2 (x : Q) : Z :=
  let c := (Z.log2 (Qnum x) - Z.log2 (Zpos (Qden x)))%Z in
  if Qle_bool (2 ^ c) x then c else (c - 1)%Z.

Definition rnd53 (x : Q) : Q :=
  if Qeq_bool x 0 then 0
  else
    let e := (ilog2 (Qabs x) - 52)%Z in
    inject_Z (round_half_even (x / 2 ^ e)) * 2 ^ e.


(** The unit roundoff of binary64, [2^-53]. *)
Definition u53 : Q := 1 # 9007199254740992.

Section Rounded.

Variable rnd : Q -> Q.

(** [RandomEvent.update], each operation rounded by [rnd]. *)
Definition update_rnd (res : Q) (self : RandomEvent) : RandomEvent :=
  let n := S (N self) in
  let est :=
    rnd (estimate self + rnd (rnd (res - estimate self) / of_nat n)) in
  {| winrate := winrate self;
     estimate := est;
     N := n;
     history := history self ++ [(n, est)] |}.

Definition feed_rnd (outcomes : list Q) (self : RandomEvent) : RandomEvent :=
  foldl (fun ev r => update_rnd r ev) self outcomes.

End Rounded.

(** The value of a float of the kernel, when it is finite. *)
Definition SF2Q (f : spec_float) : option Q :=
  match f with
  | S754_zero _ => Some 0
  | S754_finite s m e =>
      Some ((if s then - inject_Z (Zpos m) else inject_Z (Zpos m)) * 2 ^ e)
  | _ => None
  end.

Definition float_to_Q (f : float) : option Q := SF2Q (Prim2SF f).

Definition b2f (b : bool) : float := if b then 1%float else 0%float.

(** All sequences of outcomes of length [n]. *)
Fixpoint sequences (n : nat) : list (list bool) :=
  match n with
  | O => [[]]
  | S n' => flat_map (fun l => [true :: l; false :: l]) (sequences n')
  end.

(** The estimate of a new arm fed [l] is the same number with kernel
    floats and with [rnd53]. *)
Definition agrees (l : list bool) : bool :=
  match float_to_Q
          (Binary64.estimate
             (Binary64.feed (map b2f l) (Binary64.RandomEvent_init 0.5)))
  with
  | Some v =>
      Qeq_bool v (estimate (feed_rnd rnd53 (map b2q l) (RandomEvent_init 0.5)))
  | None => false
  end.

(** ** Further runs on the scripted generator *)

(** The state a scripted run ends in (the state it would start from, had
    it raised). *)
Definition script_run_out (e : Experiment) (g npg : script)
  : RunState script script :=
  match script_run e g npg with
  | Ok out => out
  | Raise _ =>
      {| self := e; optimal_index := 0; events := []; results := [];
         py := g; np := npg |}
  end.

(** The arm at position [i] (a new arm, were there none). *)
Definition arm_at (i : nat) (s : RunState script script) : RandomEvent :=
  nth i (events s) (RandomEvent_init 0).

Definition demo_arm : RandomEvent := Eval vm_compute in arm_at 2 demo_out.

(** Six iterations instead of four. *)
Definition demo_long : Experiment := Experiment_init [0.2; 0.5; 0.75] 0.1 6.
Definition demo_long_out : RunState script script :=
  Eval vm_compute in script_run_out demo_long demo_py demo_np.

(** An arm that always loses and an arm that always wins. *)
Definition demo_sure : Experiment := Experiment_init [0; 1] 0.1 4.
Definition demo_sure_out : RunState script script :=
  Eval vm_compute in script_run_out demo_sure demo_py demo_np.
Definition demo_sure_arm : RandomEvent :=
  Eval vm_compute in arm_at 1 demo_sure_out.

(** A single arm. *)
Definition demo_single : Experiment := Experiment_init [0.5] 0.1 4.
Definition demo_single_out : RunState script script :=
  Eval vm_compute in script_run_out demo_single demo_py demo_np.

(** An [initial_epsilon] above 1. *)
Definition demo_eager : Experiment := Experiment_init [0.2; 0.5; 0.75] 2 4.
Definition demo_eager_out : RunState script script :=
  Eval vm_compute in script_run_out demo_eager demo_py demo_np.


(** No iteration. *)
Definition demo_idle : Experiment := Experiment_init [0.2; 0.5; 0.75] 0.1 0.

(** ** Quantities read off the arms and the generators *)

(** What [estimate * N] stands for: the number of successes of an arm. *)
Definition arm_successes (ev : RandomEvent) : Q := estimate ev * of_nat (N ev).

Definition successes (evs : list RandomEvent) : Q := Qsum (map arm_successes evs).

(** An entry of [results], or an outcome: 0 or 1. *)
Definition binary (r : Q) : Prop := r = 0 \/ r = 1.

(** Arm [b] is arm [a] after further updates: the same win rate, at least
    as many pulls, and a history that starts with the history of [a]. *)
Definition arm_extends (a b : RandomEvent) : Prop :=
  winrate a = winrate b /\ (N a <= N b)%nat /\ history a `prefix_of` history b.

(** A generator after [n] draws of [draw]. *)
Definition advance {G : Type} (draw : G -> Q * G) (n : nat) (g : G) : G :=
  Nat.iter n (fun s => snd (draw s)) g.

(** Two states of [run] that agree on everything but [iterations] and the
    length of [results], the first [results] being the first [n1] entries
    of the second. *)
Definition agree_upto {PyRng NpRng : Type} (n1 : nat)
    (s1 s2 : RunState PyRng NpRng) : Prop :=
  probs (self s1) = probs (self s2) /\
  initial_epsilon (self s1) = initial_epsilon (self s2) /\
  num_explored (self s1) = num_explored (self s2) /\
  num_exploited (self s1) = num_exploited (self s2) /\
  num_optimal (self s1) = num_optimal (self s2) /\
  optimal_index s1 = optimal_index s2 /\
  events s1 = events s2 /\ py s1 = py s2 /\ np s1 = np s2 /\
  results s1 = take n1 (results s2).

(** * Properties *)

(** ** The running mean kept by [update] *)

Lemma of_nat_S (n : nat) : of_nat (S n) == of_nat n + 1.
Proof.
  unfold of_nat. rewrite Nat2Z.inj_succ, <- Z.add_1_r, inject_Z_plus.
  reflexivity.
Qed.

Lemma of_nat_nonneg (n : nat) : 0 <= of_nat n.
Proof.
  unfold of_nat. change 0 with (inject_Z 0). rewrite <- Zle_Qle. lia.
Qed.

Lemma of_nat_S_pos (n : nat) : 0 < of_nat (S n).
Proof. rewrite of_nat_S. pose proof (of_nat_nonneg n). lra. Qed.

(** One [update] adds the outcome to the sum that [estimate * N] stands for. *)
Lemma update_sum (r : Q) (ev : RandomEvent) :
  estimate (update r ev) * of_nat (N (update r ev))
  == estimate ev * of_nat (N ev) + r.
Proof.
  cbn [update estimate N].
  pose proof (of_nat_S_pos (N ev)) as Hpos.
  rewrite (of_nat_S (N ev)) in *.
  field. lra.
Qed.

Lemma feed_snoc (l : list Q) (r : Q) (ev : RandomEvent) :
  feed (l ++ [r]) ev = update r (feed l ev).
Proof. unfold feed. rewrite foldl_app. reflexivity. Qed.

Lemma feed_N (l : list Q) (ev : RandomEvent) :
  N (feed l ev) = (N ev + length l)%nat.
Proof.
  induction l as [|r l IH] using rev_ind.
  - cbn. lia.
  - rewrite feed_snoc, length_app. cbn [update N length]. lia.
Qed.

Lemma Qsum_snoc (l : list Q) (r : Q) : Qsum (l ++ [r]) == Qsum l + r.
Proof.
  unfold Qsum. induction l as [|x l IH]; cbn [foldr app].
  - ring.
  - rewrite IH. ring.
Qed.

Lemma feed_sum (l : list Q) (ev : RandomEvent) :
  estimate (feed l ev) * of_nat (N (feed l ev))
  == estimate ev * of_nat (N ev) + Qsum l.
Proof.
  induction l as [|r l IH] using rev_ind.
  - cbn. ring.
  - rewrite feed_snoc, update_sum, IH, Qsum_snoc. ring.
Qed.

(** Fed to a new arm, a non-empty sequence leaves its mean in [estimate]. *)
Lemma feed_init_mean (w : Q) (l : list Q) :
  l <> [] -> estimate (feed l (RandomEvent_init w)) == mean l.
Proof.
  intros Hne.
  pose proof (feed_sum l (RandomEvent_init w)) as Hs.
  rewrite feed_N in Hs. cbn [RandomEvent_init N estimate Nat.add] in Hs.
  unfold mean.
  destruct l as [|x l]; [congruence|].
  pose proof (of_nat_S_pos (length l)) as Hpos.
  cbn [length] in *.
  assert (Hq : Qsum (x :: l)
               == estimate (feed (x :: l) (RandomEvent_init w))
                  * of_nat (S (length l))) by (rewrite Hs; ring).
  rewrite Hq. field. lra.
Qed.

Lemma take_nonempty {A : Type} (k : nat) (l : list A) :
  (1 <= k <= length l)%nat -> take k l <> [].
Proof.
  intros [Hk Hl] Heq.
  apply (f_equal length) in Heq. rewrite length_take in Heq.
  cbn in Heq. lia.
Qed.

(** In exact arithmetic: feeding a sequence of binary outcomes to a new
    arm, one [update] per outcome, leaves in [estimate] after each call the
    arithmetic mean of the outcomes seen so far. *)
Lemma update_estimate_is_mean (w : Q) (outcomes : list bool) (k : nat) :
  (1 <= k <= length outcomes)%nat ->
  estimate (feed (map b2q (take k outcomes)) (RandomEvent_init w))
  == mean (map b2q (take k outcomes)).
Proof.
  intros Hk. apply feed_init_mean.
  intros Heq. apply (take_nonempty k outcomes Hk).
  destruct (take k outcomes); [reflexivity | discriminate].
Qed.

(** With the floats of the kernel: in binary64 the outcomes 1, 0, 0 leave
    0.33333333333333337 in [estimate], one unit in the last place away from
    their mean as a float, 0.3333333333333333. *)
Lemma binary64_estimate_differs_from_mean :
  let outcomes := [1; 0; 0]%float in
  Binary64.estimate (Binary64.feed outcomes (Binary64.RandomEvent_init 0.5))
  = 0x1.5555555555556p-2%float /\
  Binary64.mean outcomes = 0x1.5555555555555p-2%float /\
  PrimFloat.eqb
    (Binary64.estimate (Binary64.feed outcomes (Binary64.RandomEvent_init 0.5)))
    (Binary64.mean outcomes) = false.
Proof. vm_compute. repeat split. Qed.

(** ** The loop of [run] *)

Lemma bind_Ok {A B : Type} (m : result A) (k : A -> result B) (b : B) :
  bind m k = Ok b -> exists a, m = Ok a /\ k a = Ok b.
Proof. destruct m as [a|e]; cbn; [eauto | discriminate]. Qed.

(** A property kept by every iteration holds when the loop is over. *)
Lemma for_each_invariant {A St : Type} (body : A -> St -> result St)
    (P : St -> Prop) (xs : list A) :
  (forall x s s', P s -> body x s = Ok s' -> P s') ->
  forall st st', P st -> for_each body xs st = Ok st' -> P st'.
Proof.
  intros Hstep. induction xs as [|x xs IH]; intros st st' HP Hrun; cbn in Hrun.
  - injection Hrun as <-. exact HP.
  - apply bind_Ok in Hrun as (s1 & Hb & Hrest). eauto.
Qed.

(** A counter that every iteration advances by one has advanced by the
    number of iterations. *)
Lemma for_each_count {A St : Type} (body : A -> St -> result St)
    (m : St -> nat) (xs : list A) :
  (forall x s s', body x s = Ok s' -> m s' = S (m s)) ->
  forall st st', for_each body xs st = Ok st' -> m st' = (m st + length xs)%nat.
Proof.
  intros Hstep. induction xs as [|x xs IH]; intros st st' Hrun; cbn in Hrun.
  - injection Hrun as <-. cbn. lia.
  - apply bind_Ok in Hrun as (s1 & Hb & Hrest).
    rewrite (IH _ _ Hrest), (Hstep _ _ _ Hb). cbn. lia.
Qed.

Lemma for_each_app {A St : Type} (f : A -> St -> result St)
    (xs ys : list A) (st : St) :
  for_each f (xs ++ ys) st = (s <- for_each f xs st ;; for_each f ys s).
Proof.
  revert st. induction xs as [|x xs IH]; intros st; cbn; [reflexivity|].
  destruct (f x st); cbn; auto.
Qed.

Lemma length_range (n : Z) : (0 <= n)%Z -> Z.of_nat (length (range n)) = n.
Proof. intros Hn. unfold range. rewrite length_seq. lia. Qed.

Lemma np_zeros_Ok (n : Z) (z : list Q) :
  np_zeros n = Ok z -> (0 <= n)%Z /\ z = replicate (Z.to_nat n) 0.
Proof.
  unfold np_zeros. destruct (Z.ltb_spec n 0); [discriminate|].
  intros [= <-]. split; [lia | reflexivity].
Qed.

(** ** The epsilon schedule *)

Lemma inject_Z_nonneg (t : Z) : (0 <= t)%Z -> 0 <= inject_Z t.
Proof. intros Ht. change 0 with (inject_Z 0). rewrite <- Zle_Qle. exact Ht. Qed.

Lemma epsilon_func_denominator (t : Z) :
  (0 <= t)%Z -> 1 <= 0.01 * inject_Z t + 1.
Proof. intros Ht. pose proof (inject_Z_nonneg t Ht). lra. Qed.

Lemma epsilon_func_Ok (val : Q) (t : Z) :
  (0 <= t)%Z -> epsilon_func val t = Ok (val / (0.01 * inject_Z t + 1)).
Proof.
  intros Ht. unfold epsilon_func.
  pose proof (epsilon_func_denominator t Ht) as Hd.
  destruct (Qeq_bool (0.01 * inject_Z t + 1) 0) eqn:E; [|reflexivity].
  apply Qeq_bool_eq in E. lra.
Qed.

Lemma epsilon_func_zero (val : Q) (t : Z) (v : Q) :
  val == 0 -> epsilon_func val t = Ok v -> v == 0.
Proof.
  intros Hval. unfold epsilon_func.
  destruct (Qeq_bool (0.01 * inject_Z t + 1) 0); [discriminate|].
  intros [= <-]. rewrite Hval. unfold Qdiv. ring.
Qed.

(** A non-negative numerator over a larger positive denominator is no
    larger. *)
Lemma Qdiv_le_denominator (a d d' : Q) :
  0 <= a -> 0 < d -> d <= d' -> a / d' <= a / d.
Proof.
  intros Ha Hd Hdd'.
  apply Qle_shift_div_r; [lra|].
  assert (Hq : 0 <= a / d) by (apply Qle_shift_div_l; lra).
  assert (Ha' : a == (a / d) * d) by (field; lra).
  rewrite Ha' at 1.
  rewrite (Qmult_comm (a / d) d), (Qmult_comm (a / d) d').
  apply Qmult_le_compat_r; assumption.
Qed.

(** C3. For [e0 >= 0] and an iteration index [t >= 0], [epsilon_func e0 t]
    is [e0 / (0.01 * t + 1)]; its value at a later index is no larger; and
    its value at index 0 is [e0]. *)
Theorem epsilon_func_decays (e0 : Q) (t : Z) :
  0 <= e0 -> (0 <= t)%Z ->
  epsilon_func e0 t = Ok (e0 / (0.01 * inject_Z t + 1))
  /\ (forall t' v v',
         (t <= t')%Z ->
         epsilon_func e0 t = Ok v -> epsilon_func e0 t' = Ok v' -> v' <= v)
  /\ (exists v0, epsilon_func e0 0 = Ok v0 /\ v0 == e0).
Proof.
  intros He0 Ht. split; [apply epsilon_func_Ok, Ht|]. split.
  - intros t' v v' Htt'.
    rewrite !epsilon_func_Ok by lia. intros [= <-] [= <-].
    pose proof (epsilon_func_denominator t Ht).
    apply Qdiv_le_denominator; [assumption | lra |].
    rewrite Zle_Qle in Htt'. lra.
  - exists (e0 / (0.01 * inject_Z 0 + 1)). split; [reflexivity|].
    field.
Qed.

Lemma epsilon_func_decays_witness :
  epsilon_func 0.1 50 = Ok (0.1 / (0.01 * inject_Z 50 + 1))
  /\ (forall t' v v',
         (50 <= t')%Z ->
         epsilon_func 0.1 50 = Ok v -> epsilon_func 0.1 t' = Ok v' -> v' <= v)
  /\ (exists v0, epsilon_func 0.1 0 = Ok v0 /\ v0 == 0.1).
Proof. apply epsilon_func_decays; [lra | lia]. Defined.

(** ** [np.argmax] returns the first maximum *)

Lemma Qltb_false (x y : Q) : y <= x -> Qltb x y = false.
Proof.
  intros H. unfold Qltb. apply Qle_bool_iff in H. rewrite H. reflexivity.
Qed.

Lemma Qltb_spec (x y : Q) : reflect (x < y) (Qltb x y).
Proof.
  unfold Qltb. destruct (Qle_bool y x) eqn:E; cbn; constructor.
  - apply Qle_bool_iff in E. lra.
  - apply Qnot_le_lt. intros Hle. apply Qle_bool_iff in Hle. congruence.
Qed.

(** The scan, started after a prefix [pre] whose first maximum [best] is at
    [best_i], ends on the first maximum of the whole sequence. *)
Lemma argmax_scan_first_max (l pre : list Q) (best : Q) (best_i : nat) :
  pre !! best_i = Some best ->
  (forall j y, pre !! j = Some y -> y <= best) ->
  (forall j y, (j < best_i)%nat -> pre !! j = Some y -> y < best) ->
  is_first_max (pre ++ l) (argmax_scan best best_i (length pre) l).
Proof.
  revert pre best best_i.
  induction l as [|x l IH]; intros pre best best_i Hat Hmax Hfirst.
  - cbn [argmax_scan]. rewrite app_nil_r. exists best. auto.
  - cbn [argmax_scan].
    replace (pre ++ x :: l) with ((pre ++ [x]) ++ l)
      by (rewrite <- app_assoc; reflexivity).
    replace (S (length pre)) with (length (pre ++ [x]))
      by (rewrite length_app; cbn; lia).
    destruct (Qltb_spec best x) as [Hlt|Hge]; apply IH.
    + apply list_lookup_middle. reflexivity.
    + intros j y Hj. apply lookup_app_Some in Hj as [Hj|[_ Hj]].
      * specialize (Hmax _ _ Hj). lra.
      * apply list_lookup_singleton_Some in Hj as [_ <-]. lra.
    + intros j y Hlt' Hj. rewrite lookup_app_l in Hj by lia.
      specialize (Hmax _ _ Hj). lra.
    + apply lookup_app_l_Some. exact Hat.
    + intros j y Hj. apply lookup_app_Some in Hj as [Hj|[_ Hj]].
      * eauto.
      * apply list_lookup_singleton_Some in Hj as [_ <-]. lra.
    + intros j y Hlt' Hj.
      apply lookup_lt_Some in Hat.
      rewrite lookup_app_l in Hj by lia. eauto.
Qed.

Lemma argmax_first_max (l : list Q) (i : nat) :
  argmax l = Ok i -> is_first_max l i.
Proof.
  destruct l as [|x l]; [discriminate|]. cbn [argmax]. intros [= <-].
  apply (argmax_scan_first_max l [x] x 0).
  - reflexivity.
  - intros [|j] y Hj; cbn in Hj; [|discriminate].
    injection Hj as <-. lra.
  - intros j y Hlt. lia.
Qed.

Lemma argmax_nonempty (l : list Q) : l <> [] -> exists i, argmax l = Ok i.
Proof. destruct l; [congruence | cbn; eauto]. Qed.

(** ** Counters, sums and histories *)

Lemma for_each_count_le {A St : Type} (f : A -> St -> result St)
    (m : St -> nat) (xs : list A) :
  (forall x s s', f x s = Ok s' -> (m s' <= S (m s))%nat) ->
  forall st st', for_each f xs st = Ok st' -> (m st' <= m st + length xs)%nat.
Proof.
  intros Hstep. induction xs as [|x xs IH]; intros st st' Hrun; cbn in Hrun.
  - injection Hrun as <-. cbn. lia.
  - apply bind_Ok in Hrun as (s1 & Hb & Hrest).
    specialize (IH _ _ Hrest). specialize (Hstep _ _ _ Hb). cbn. lia.
Qed.

Lemma tally_config (ex : bool) (k oi : nat) (e : Experiment) :
  probs (tally ex k oi e) = probs e /\
  initial_epsilon (tally ex k oi e) = initial_epsilon e /\
  iterations (tally ex k oi e) = iterations e.
Proof. unfold tally. destruct ex, (Nat.eqb k oi); cbn; auto. Qed.

Lemma tally_counters (ex : bool) (k oi : nat) (e : Experiment) :
  num_explored (tally ex k oi e)
  = (num_explored e + if ex then 1 else 0)%nat /\
  num_exploited (tally ex k oi e)
  = (num_exploited e + if ex then 0 else 1)%nat /\
  num_optimal (tally ex k oi e)
  = (num_optimal e + if Nat.eqb k oi then 1 else 0)%nat.
Proof. unfold tally. destruct ex, (Nat.eqb k oi); cbn; lia. Qed.

Lemma Experiment_eq (e1 e2 : Experiment) :
  probs e1 = probs e2 -> initial_epsilon e1 = initial_epsilon e2 ->
  iterations e1 = iterations e2 -> num_explored e1 = num_explored e2 ->
  num_exploited e1 = num_exploited e2 -> num_optimal e1 = num_optimal e2 ->
  e1 = e2.
Proof. destruct e1, e2; cbn; intros; subst; reflexivity. Qed.

Lemma sum_list_with_insert {A : Type} (f : A -> nat) (l : list A)
    (k : nat) (x y : A) :
  l !! k = Some x ->
  (sum_list_with f (<[k := y]> l) + f x = sum_list_with f l + f y)%nat.
Proof.
  revert k. induction l as [|a l IH]; intros [|k] Hk; try discriminate.
  - injection Hk as ->. cbn. lia.
  - specialize (IH k Hk).
    change (f a + sum_list_with f (<[k := y]> l) + f x
            = f a + sum_list_with f l + f y)%nat.
    lia.
Qed.

Lemma sum_list_with_init (ps : list Q) :
  sum_list_with N (map RandomEvent_init ps) = 0%nat.
Proof. induction ps as [|p ps IH]; cbn; [reflexivity | exact IH]. Qed.

Lemma update_history_numbered (res : Q) (ev : RandomEvent) :
  history_numbered ev -> history_numbered (update res ev).
Proof.
  intros [Hlen Hnum]. split; cbn [update history N].
  - rewrite length_app. cbn. lia.
  - intros k p Hk. apply lookup_app_Some in Hk as [Hk|[Hge Hk]].
    + eauto.
    + apply list_lookup_singleton_Some in Hk as [Hk <-]. cbn. lia.
Qed.

Lemma init_history_numbered (ps : list Q) :
  Forall history_numbered (map RandomEvent_init ps).
Proof.
  induction ps as [|p ps IH]; constructor; [|exact IH].
  split; [reflexivity | intros k q Hk; discriminate].
Qed.


Section BanditProperties.

Variables PyRng NpRng : Type.
Variable random_random : PyRng -> Q * PyRng.
Variable random_choice : nat -> PyRng -> nat * PyRng.
Variable np_random_random : NpRng -> Q * NpRng.

Local Abbreviation RunState := (RunState PyRng NpRng).
Local Abbreviation pull := (pull NpRng np_random_random).
Local Abbreviation select := (select PyRng random_random random_choice).
Local Abbreviation body :=
  (body PyRng NpRng random_random random_choice np_random_random).
Local Abbreviation run :=
  (run PyRng NpRng random_random random_choice np_random_random).

(** What an iteration that does not raise has done. *)
Lemma body_Ok (t : nat) (st st' : RunState) :
  body t st = Ok st' ->
  exists epsilon k explored g ev res npg,
    epsilon_func (initial_epsilon (self st)) (Z.of_nat t) = Ok epsilon /\
    select epsilon (events st) (py st) = Ok (k, explored, g) /\
    events st !! k = Some ev /\
    pull ev (np st) = (res, ev, npg) /\
    st' = {| self := tally explored k (optimal_index st) (self st);
             optimal_index := optimal_index st;
             events := <[k := update (b2q res) ev]> (events st);
             results := <[t := b2q res]> (results st);
             py := g;
             np := npg |}.
Proof.
  unfold body. intros H.
  apply bind_Ok in H as (epsilon & Heps & H).
  apply bind_Ok in H as ([[k explored] g] & Hsel & H).
  destruct (events st !! k) as [ev|] eqn:Hev; [|discriminate].
  unfold pull in *.
  destruct (np_random_random (np st)) as [u npg] eqn:Hu.
  injection H as <-.
  exists epsilon, k, explored, g, ev, (Qltb u (winrate ev)), npg.
  repeat split; try assumption; reflexivity.
Qed.

(** What [run] does before the loop, when it completes. *)
Lemma run_Ok (e : Experiment) (g : PyRng) (npg : NpRng) (out : RunState) :
  run e g npg = Ok out ->
  exists oi,
    argmax (probs e) = Ok oi /\ (0 <= iterations e)%Z /\
    for_each body (range (iterations e))
      {| self := e; optimal_index := oi;
         events := map RandomEvent_init (probs e);
         results := replicate (Z.to_nat (iterations e)) 0;
         py := g; np := npg |} = Ok out.
Proof.
  unfold run. intros H.
  apply bind_Ok in H as (oi & Hoi & H).
  apply bind_Ok in H as (z & Hz & H).
  apply np_zeros_Ok in Hz as [Hn ->]. eauto.
Qed.

Lemma body_explored_exploited (t : nat) (st st' : RunState) :
  body t st = Ok st' ->
  (num_explored (self st') + num_exploited (self st'))%nat
  = S (num_explored (self st) + num_exploited (self st)).
Proof.
  intros H. apply body_Ok in H as (eps & k & ex & g & ev & r & npg & H).
  destruct H as (_ & _ & _ & _ & ->). cbn [self]. unfold tally.
  destruct ex, (Nat.eqb k (optimal_index st)); cbn; lia.
Qed.

(** Every iteration explores or exploits: a completed [run] has added
    [iterations] to the two counters together. *)
Lemma run_counts_every_iteration
    (e : Experiment) (g : PyRng) (npg : NpRng) (out : RunState) :
  run e g npg = Ok out ->
  Z.of_nat (num_explored (self out) + num_exploited (self out))
  = (Z.of_nat (num_explored e + num_exploited e) + iterations e)%Z.
Proof.
  intros H. apply run_Ok in H as (oi & _ & Hn & Hloop).
  apply (for_each_count body
           (fun s => (num_explored (self s) + num_exploited (self s))%nat))
    in Hloop; [|apply body_explored_exploited].
  cbn [self] in Hloop. pose proof (length_range _ Hn) as Hlen. lia.
Qed.

(** C2 (as amended). A completed [run] advances [num_explored +
    num_exploited] by [iterations]: the sum equals [iterations] when both
    counters were zero on entry, as they are for a new experiment, and
    exceeds it by what they held otherwise. *)
Theorem run_explored_plus_exploited
    (e : Experiment) (g : PyRng) (npg : NpRng) (out : RunState) :
  run e g npg = Ok out ->
  Z.of_nat (num_explored (self out) + num_exploited (self out))
  = (Z.of_nat (num_explored e + num_exploited e) + iterations e)%Z
  /\ (num_explored e = 0%nat -> num_exploited e = 0%nat ->
      Z.of_nat (num_explored (self out) + num_exploited (self out))
      = iterations e).
Proof.
  intros H. pose proof (run_counts_every_iteration e g npg out H) as Hsum.
  split; [exact Hsum | intros H1 H2; lia].
Qed.

(** *** The counter of optimal selections *)

Lemma body_num_optimal (t : nat) (st st' : RunState) :
  body t st = Ok st' ->
  exists epsilon k explored g,
    epsilon_func (initial_epsilon (self st)) (Z.of_nat t) = Ok epsilon /\
    select epsilon (events st) (py st) = Ok (k, explored, g) /\
    num_optimal (self st')
    = (num_optimal (self st)
       + if Nat.eqb k (optimal_index st) then 1 else 0)%nat.
Proof.
  intros H. apply body_Ok in H as (eps & k & ex & g & ev & r & npg & H).
  destruct H as (Heps & Hsel & _ & _ & ->).
  exists eps, k, ex, g. repeat split; try assumption.
  cbn [self]. unfold tally.
  destruct ex, (Nat.eqb k (optimal_index st)); cbn; lia.
Qed.

(** C5. In an iteration, whichever branch chose the arm, [num_optimal]
    goes up by one when the index chosen is [optimal_index] and stays as
    it is otherwise; so a completed [run] of an experiment whose
    [num_optimal] was zero leaves it at most [iterations]. *)
Theorem num_optimal_counts_optimal_selections :
  (forall (t : nat) (st st' : RunState),
      body t st = Ok st' ->
      exists epsilon k explored g,
        epsilon_func (initial_epsilon (self st)) (Z.of_nat t) = Ok epsilon /\
        select epsilon (events st) (py st) = Ok (k, explored, g) /\
        num_optimal (self st')
        = (num_optimal (self st)
           + if Nat.eqb k (optimal_index st) then 1 else 0)%nat)
  /\ (forall (e : Experiment) (g : PyRng) (npg : NpRng) (out : RunState),
         run e g npg = Ok out ->
         num_optimal e = 0%nat ->
         (Z.of_nat (num_optimal (self out)) <= iterations e)%Z).
Proof.
  split; [exact body_num_optimal|].
  intros e g npg out H H0. apply run_Ok in H as (oi & _ & Hn & Hloop).
  apply (for_each_count_le body (fun s => num_optimal (self s))) in Hloop.
  - cbn [self] in Hloop. pose proof (length_range _ Hn). lia.
  - intros t s s' Hb.
    apply body_num_optimal in Hb as (? & k & ? & ? & _ & _ & ->).
    destruct (Nat.eqb k (optimal_index s)); lia.
Qed.

(** *** No exploration when epsilon is zero *)

(** C8. When [initial_epsilon] is zero and every draw of
    [random.random()] lies in [0, 1): epsilon is zero at every iteration,
    and a completed [run] leaves [num_explored] as it found it, so at zero
    for a new experiment; every iteration has gone to [num_exploited]. *)
Theorem zero_epsilon_never_explores
    (e : Experiment) (g : PyRng) (npg : NpRng) (out : RunState) :
  (forall s, 0 <= fst (random_random s) < 1) ->
  initial_epsilon e == 0 ->
  run e g npg = Ok out ->
  (forall t v, epsilon_func (initial_epsilon e) (Z.of_nat t) = Ok v -> v == 0)
  /\ num_explored (self out) = num_explored e
  /\ (num_explored e = 0%nat -> num_explored (self out) = 0%nat)
  /\ Z.of_nat (num_exploited (self out))
     = (Z.of_nat (num_exploited e) + iterations e)%Z.
Proof.
  intros Hu He H.
  split; [intros t v; apply epsilon_func_zero, He|].
  assert (Hkeep : num_explored (self out) = num_explored e).
  2: { pose proof (run_counts_every_iteration e g npg out H).
       split; [exact Hkeep | split; lia]. }
  apply run_Ok in H as (oi & _ & _ & Hloop).
  set (P := fun s : RunState =>
              initial_epsilon (self s) = initial_epsilon e /\
              num_explored (self s) = num_explored e).
  apply (for_each_invariant body P) in Hloop; [apply Hloop | | split; reflexivity].
  intros t s s' [HPe HPn] Hb.
  apply body_Ok in Hb as (eps & k & ex & g' & ev & r & npg' & Hb).
  destruct Hb as (Heps & Hsel & _ & _ & ->).
  rewrite HPe in Heps. apply (epsilon_func_zero _ _ _ He) in Heps.
  unfold select in Hsel.
  pose proof (Hu (py s)) as Hrange.
  destruct (random_random (py s)) as [u g1]. cbn [fst] in Hrange.
  rewrite Qltb_false in Hsel by lra.
  apply bind_Ok in Hsel as (k' & _ & [= -> <- <-]).
  unfold P. cbn [self]. unfold tally.
  destruct (Nat.eqb k (optimal_index s)); cbn; auto.
Qed.

(** *** The optimal index and the exploited arm *)

Lemma body_optimal_index (t : nat) (st st' : RunState) :
  body t st = Ok st' -> optimal_index st' = optimal_index st.
Proof.
  intros H. apply body_Ok in H as (? & ? & ? & ? & ? & ? & ? & H).
  destruct H as (_ & _ & _ & _ & ->). reflexivity.
Qed.

Lemma run_upto_all (e : Experiment) (g : PyRng) (npg : NpRng) :
  run_upto PyRng NpRng random_random random_choice np_random_random
    (Z.to_nat (iterations e)) e g npg
  = run e g npg.
Proof. reflexivity. Qed.

(** A completed [run] has gone through every iteration: iteration [t]
    started from the state [run_upto t] and led to [run_upto (S t)]. *)
Lemma run_iteration (e : Experiment) (g : PyRng) (npg : NpRng)
    (out : RunState) (t : nat) :
  run e g npg = Ok out ->
  (t < Z.to_nat (iterations e))%nat ->
  exists st st',
    run_upto PyRng NpRng random_random random_choice np_random_random
      t e g npg = Ok st /\
    body t st = Ok st' /\
    run_upto PyRng NpRng random_random random_choice np_random_random
      (S t) e g npg = Ok st' /\
    initial_epsilon (self st) = initial_epsilon e.
Proof.
  intros H Ht. apply run_Ok in H as (oi & Hoi & Hn & Hloop).
  unfold range in Hloop.
  replace (Z.to_nat (iterations e))
    with (t + S (Z.to_nat (iterations e) - S t))%nat in Hloop at 1 by lia.
  rewrite seq_app, for_each_app in Hloop.
  apply bind_Ok in Hloop as (st & Hst & Hrest).
  cbn [seq for_each Nat.add] in Hrest.
  apply bind_Ok in Hrest as (st' & Hb & _).
  exists st, st'. unfold run_upto, np_zeros. rewrite Hoi. cbn [bind].
  destruct (Z.ltb_spec (iterations e) 0); [lia|]. cbn [bind].
  split; [exact Hst|]. split; [exact Hb|]. split.
  - rewrite seq_S, for_each_app, Hst. cbn [bind for_each Nat.add].
    rewrite Hb. reflexivity.
  - apply (for_each_invariant body
             (fun s => initial_epsilon (self s) = initial_epsilon e))
      in Hst; [exact Hst | | reflexivity].
    intros t0 s s' Hs Hb0.
    apply body_Ok in Hb0 as (? & k & ex & ? & ? & ? & ? & Hb0).
    destruct Hb0 as (_ & _ & _ & _ & ->). cbn [self].
    pose proof (tally_config ex k (optimal_index s) (self s)) as (_ & -> & _).
    exact Hs.
Qed.

(** What an iteration chooses, on any state: the arm chosen is the arm
    pulled and updated; the iteration explores exactly when its draw is below
    epsilon; and when it does not, the arm chosen is at the position of the
    first maximum of the estimates the arms have in that state, and the
    iteration is counted in [num_exploited]. *)
Lemma body_selection (t : nat) (st st' : RunState) :
  body t st = Ok st' ->
  exists epsilon k explored g' ev res,
    epsilon_func (initial_epsilon (self st)) (Z.of_nat t) = Ok epsilon /\
    select epsilon (events st) (py st) = Ok (k, explored, g') /\
    explored = Qltb (fst (random_random (py st))) epsilon /\
    events st !! k = Some ev /\
    events st' = <[k := update (b2q res) ev]> (events st) /\
    (explored = false ->
     is_first_max (map estimate (events st)) k /\
     num_exploited (self st') = S (num_exploited (self st)) /\
     num_explored (self st') = num_explored (self st)).
Proof.
  intros Hb.
  apply body_Ok in Hb as (epsilon & k & ex & g' & ev & res & npg' & Hb).
  destruct Hb as (Heps & Hsel & Hev & _ & Hst').
  exists epsilon, k, ex, g', ev, res.
  split; [exact Heps|]. split; [exact Hsel|].
  assert (Hex : ex = Qltb (fst (random_random (py st))) epsilon /\
                (ex = false -> is_first_max (map estimate (events st)) k)).
  { revert Hsel. unfold select.
    destruct (random_random (py st)) as [u g1]. cbn [fst].
    destruct (Qltb u epsilon).
    - destruct (random_choice (length (events st)) g1).
      intros [= <- <- <-]. split; [reflexivity | discriminate].
    - intros Hk. apply bind_Ok in Hk as (k' & Hk & [= <- <- <-]).
      split; [reflexivity|]. intros _. apply argmax_first_max, Hk. }
  destruct Hex as [Hex Hmax].
  split; [exact Hex|]. split; [exact Hev|].
  split; [rewrite Hst'; reflexivity|].
  intros Hfalse. split; [apply Hmax, Hfalse|].
  rewrite Hst'. cbn [self].
  pose proof (tally_counters ex k (optimal_index st) (self st)) as (-> & -> & _).
  rewrite Hfalse. split; lia.
Qed.

(** C4. For a non-empty [probs], [np.argmax] gives [run] the position of
    the first maximum of [probs] as [optimal_index]. An iteration, on any
    state and so whatever estimates the arms hold, pulls and updates the arm
    it has chosen, explores exactly when its draw is below epsilon, and
    otherwise exploits: the arm chosen is then at the position of the first
    maximum of the estimates the arms have at that moment, and the
    iteration is counted in [num_exploited]. And a completed [run] is made
    of these iterations: iteration [t] takes the state [run_upto t] to the
    state [run_upto (S t)]. *)
Theorem argmax_breaks_ties_by_first_occurrence :
  (forall e : Experiment,
      probs e <> [] ->
      exists oi,
        argmax (probs e) = Ok oi /\
        is_first_max (probs e) oi /\
        forall g npg out, run e g npg = Ok out -> optimal_index out = oi)
  /\ (forall (t : nat) (st st' : RunState),
         body t st = Ok st' ->
         exists epsilon k explored g' ev res,
           epsilon_func (initial_epsilon (self st)) (Z.of_nat t) = Ok epsilon /\
           select epsilon (events st) (py st) = Ok (k, explored, g') /\
           explored = Qltb (fst (random_random (py st))) epsilon /\
           events st !! k = Some ev /\
           events st' = <[k := update (b2q res) ev]> (events st) /\
           (explored = false ->
            is_first_max (map estimate (events st)) k /\
            num_exploited (self st') = S (num_exploited (self st)) /\
            num_explored (self st') = num_explored (self st)))
  /\ (forall (e : Experiment) (g : PyRng) (npg : NpRng) (out : RunState)
         (t : nat),
         run e g npg = Ok out ->
         (t < Z.to_nat (iterations e))%nat ->
         exists st st',
           run_upto PyRng NpRng random_random random_choice np_random_random
             t e g npg = Ok st /\
           body t st = Ok st' /\
           run_upto PyRng NpRng random_random random_choice np_random_random
             (S t) e g npg = Ok st' /\
           initial_epsilon (self st) = initial_epsilon e /\
           run_upto PyRng NpRng random_random random_choice np_random_random
             (Z.to_nat (iterations e)) e g npg = Ok out).
Proof.
  split; [|split].
  - intros e Hne. destruct (argmax_nonempty _ Hne) as [oi Hoi].
    exists oi. split; [exact Hoi|]. split; [apply argmax_first_max, Hoi|].
    intros g npg out H. apply run_Ok in H as (oi' & Hoi' & _ & Hloop).
    assert (oi' = oi) as -> by congruence.
    apply (for_each_invariant body (fun s => optimal_index s = oi))
      in Hloop; [exact Hloop | | reflexivity].
    intros t s s' Hs Hb. rewrite (body_optimal_index _ _ _ Hb). exact Hs.
  - exact body_selection.
  - intros e g npg out t H Ht.
    destruct (run_iteration e g npg out t H Ht)
      as (st & st' & Hst & Hb & Hst' & He).
    exists st, st'. rewrite run_upto_all. auto.
Qed.

(** *** Pulls and histories *)

Lemma body_one_update (t : nat) (st st' : RunState) :
  body t st = Ok st' ->
  exists k ev res,
    events st !! k = Some ev /\
    events st' = <[k := update res ev]> (events st).
Proof.
  intros H. apply body_Ok in H as (? & k & ? & ? & ev & r & ? & H).
  destruct H as (_ & _ & Hev & _ & ->). exists k, ev, (b2q r). auto.
Qed.

(** C10. An iteration replaces one arm by its [update]; so after a
    completed [run] the pull counts [N] of the arms add up to
    [iterations], and each arm has as many history entries as pulls, the
    entry at position [k] (from 0) being numbered [k + 1]. *)
Theorem pulls_add_up_to_iterations :
  (forall (t : nat) (st st' : RunState),
      body t st = Ok st' ->
      exists k ev res,
        events st !! k = Some ev /\
        events st' = <[k := update res ev]> (events st))
  /\ (forall (e : Experiment) (g : PyRng) (npg : NpRng) (out : RunState),
         run e g npg = Ok out ->
         Z.of_nat (sum_list_with N (events out)) = iterations e /\
         forall i ev,
           events out !! i = Some ev ->
           length (history ev) = N ev /\
           forall k p, history ev !! k = Some p -> fst p = S k).
Proof.
  split; [exact body_one_update|].
  intros e g npg out H. apply run_Ok in H as (oi & _ & Hn & Hloop). split.
  - apply (for_each_count body (fun s => sum_list_with N (events s)))
      in Hloop.
    + cbn [events] in Hloop. rewrite sum_list_with_init in Hloop.
      pose proof (length_range _ Hn). lia.
    + intros t s s' Hb. apply body_one_update in Hb as (k & ev & r & Hev & ->).
      pose proof (sum_list_with_insert N _ _ _ (update r ev) Hev) as Hs.
      cbn [update N] in Hs. lia.
  - apply (for_each_invariant body
             (fun s => Forall history_numbered (events s))) in Hloop.
    + intros i ev Hev. exact (Forall_lookup_1 _ _ _ _ Hloop Hev).
    + intros t s s' Hs Hb.
      apply body_one_update in Hb as (k & ev & r & Hev & ->).
      apply Forall_insert; [exact Hs|].
      apply update_history_numbered, (Forall_lookup_1 _ _ _ _ Hs Hev).
    + apply init_history_numbered.
Qed.

(** *** What [pull] and [update] leave alone *)

Lemma arm_call_winrate (st : RandomEvent * NpRng) (c : ArmCall) :
  winrate (fst (arm_call NpRng np_random_random st c)) = winrate (fst st).
Proof.
  destruct st as [ev g], c as [|res]; cbn [arm_call fst snd].
  - unfold pull. destruct (np_random_random g). reflexivity.
  - reflexivity.
Qed.

(** C9. [pull] hands back the arm it was called on, with [winrate],
    [estimate], [N] and [history] as they were; and no sequence of calls
    of [pull] and [update] on an arm changes its [winrate]. *)
Theorem pull_keeps_arm_and_winrate_is_fixed :
  (forall (ev : RandomEvent) (g : NpRng),
      let ev' := snd (fst (pull ev g)) in
      ev' = ev /\
      winrate ev' = winrate ev /\ estimate ev' = estimate ev /\
      N ev' = N ev /\ history ev' = history ev)
  /\ (forall (res : Q) (ev : RandomEvent),
         winrate (update res ev) = winrate ev)
  /\ (forall (calls : list ArmCall) (ev : RandomEvent) (g : NpRng),
         winrate (fst (foldl (arm_call NpRng np_random_random) (ev, g) calls))
         = winrate ev).
Proof.
  split; [|split].
  - intros ev g. unfold pull.
    destruct (np_random_random g). cbn. auto.
  - reflexivity.
  - intros calls. induction calls as [|c calls IH]; intros ev g; cbn [foldl].
    + reflexivity.
    + destruct (arm_call NpRng np_random_random (ev, g) c) as [ev1 g1] eqn:E.
      rewrite IH. change ev1 with (fst (ev1, g1)). rewrite <- E.
      apply arm_call_winrate.
Qed.

(** *** Determinism *)

Lemma body_tally (t : nat) (st : RunState) :
  body t st
  = (epsilon <- epsilon_func (initial_epsilon (self st)) (Z.of_nat t) ;;
     sel <- select epsilon (events st) (py st) ;;
     let '(k, explored, g) := sel in
     match events st !! k with
     | None => Raise IndexError
     | Some ev =>
         let '(res, ev1, npg) := pull ev (np st) in
         Ok {| self := tally explored k (optimal_index st) (self st);
               optimal_index := optimal_index st;
               events := <[k := update (b2q res) ev1]> (events st);
               results := <[t := b2q res]> (results st);
               py := g;
               np := npg |}
     end).
Proof. reflexivity. Qed.

(** From states that agree, an iteration raises the same exception or
    leads to states that agree. *)
Lemma body_agree (c1 c2 : Experiment) (t : nat) (s1 s2 : RunState) :
  run_agree PyRng NpRng c1 c2 s1 s2 ->
  result_agree PyRng NpRng c1 c2 (body t s1) (body t s2).
Proof.
  intros (Hp & He & Hi & Ho & Hev & Hr & Hpy & Hnp & Hx & Hy & Hz).
  rewrite !body_tally, <- He, <- Hev, <- Hpy, <- Hnp, <- Ho, <- Hr.
  destruct (epsilon_func (initial_epsilon (self s1)) (Z.of_nat t))
    as [epsilon|x]; cbn [bind result_agree]; [|reflexivity].
  destruct (select epsilon (events s1) (py s1)) as [[[k ex] g]|x];
    cbn [bind result_agree]; [|reflexivity].
  destruct (events s1 !! k) as [ev|]; cbn [result_agree]; [|reflexivity].
  destruct (pull ev (np s1)) as [[res ev1] npg]. cbn [result_agree].
  unfold run_agree. cbn [self optimal_index events results py np].
  pose proof (tally_config ex k (optimal_index s1) (self s1)) as (-> & -> & ->).
  pose proof (tally_config ex k (optimal_index s1) (self s2)) as (-> & -> & ->).
  pose proof (tally_counters ex k (optimal_index s1) (self s1)) as (-> & -> & ->).
  pose proof (tally_counters ex k (optimal_index s1) (self s2)) as (-> & -> & ->).
  repeat split; try assumption; try reflexivity; lia.
Qed.

Lemma for_each_agree (c1 c2 : Experiment) (ts : list nat) :
  forall s1 s2 : RunState,
    run_agree PyRng NpRng c1 c2 s1 s2 ->
    result_agree PyRng NpRng c1 c2 (for_each body ts s1) (for_each body ts s2).
Proof.
  induction ts as [|t ts IH]; intros s1 s2 Hs; cbn [for_each].
  - exact Hs.
  - pose proof (body_agree c1 c2 t s1 s2 Hs) as Hb.
    destruct (body t s1) as [s1'|x1], (body t s2) as [s2'|x2];
      cbn [bind result_agree] in *; try contradiction; auto.
Qed.

Lemma run_agree_result (e1 e2 : Experiment) (g : PyRng) (npg : NpRng) :
  probs e1 = probs e2 ->
  initial_epsilon e1 = initial_epsilon e2 ->
  iterations e1 = iterations e2 ->
  result_agree PyRng NpRng e1 e2 (run e1 g npg) (run e2 g npg).
Proof.
  intros Hp He Hi. unfold run. rewrite <- Hp, <- Hi.
  destruct (argmax (probs e1)) as [oi|x]; cbn [bind result_agree];
    [|reflexivity].
  destruct (np_zeros (iterations e1)) as [z|x]; cbn [bind result_agree];
    [|reflexivity].
  apply for_each_agree. unfold run_agree.
  cbn [self optimal_index events results py np].
  repeat split; try assumption; try reflexivity; lia.
Qed.

(** C6 (as amended). Two runs of experiments with the same [probs],
    [initial_epsilon] and [iterations], started from the same states of both
    generators, raise the same exception or complete with the same arms (so
    the same histories), the same outcome sequence and the same generator
    states, each counter having advanced by the same amount in both; the
    counters themselves are identical exactly when they were on entry, as
    for two new experiments, and not for a second run of one object. *)
Theorem run_is_deterministic
    (e1 e2 : Experiment) (g : PyRng) (npg : NpRng) :
  probs e1 = probs e2 ->
  initial_epsilon e1 = initial_epsilon e2 ->
  iterations e1 = iterations e2 ->
  match run e1 g npg, run e2 g npg with
  | Ok o1, Ok o2 =>
      events o1 = events o2 /\
      map history (events o1) = map history (events o2) /\
      results o1 = results o2 /\
      optimal_index o1 = optimal_index o2 /\
      py o1 = py o2 /\ np o1 = np o2 /\
      (num_explored (self o1) + num_explored e2
       = num_explored (self o2) + num_explored e1)%nat /\
      (num_exploited (self o1) + num_exploited e2
       = num_exploited (self o2) + num_exploited e1)%nat /\
      (num_optimal (self o1) + num_optimal e2
       = num_optimal (self o2) + num_optimal e1)%nat /\
      (num_explored e1 = num_explored e2 ->
       num_exploited e1 = num_exploited e2 ->
       num_optimal e1 = num_optimal e2 ->
       o1 = o2)
  | Raise x1, Raise x2 => x1 = x2
  | _, _ => False
  end.
Proof.
  intros Hp He Hi. pose proof (run_agree_result e1 e2 g npg Hp He Hi) as H.
  destruct (run e1 g npg) as [o1|x1], (run e2 g npg) as [o2|x2];
    cbn [result_agree] in H; try contradiction; [|exact H].
  destruct H as (Hp' & He' & Hi' & Ho & Hev & Hr & Hpy & Hnp & Hx & Hy & Hz).
  repeat split; try assumption; [congruence|].
  intros Ex Ey Ez.
  assert (self o1 = self o2) by (apply Experiment_eq; try assumption; lia).
  destruct o1, o2; cbn in *; subst; reflexivity.
Qed.

(** *** Completion

    With at least one probability, a non-negative number of iterations and
    a [random.choice] that returns an element of the range it is given,
    [run] raises nothing. *)

Lemma select_in_range (epsilon : Q) (evs : list RandomEvent) (g g' : PyRng)
    (k : nat) (explored : bool) :
  (forall n s, (0 < n)%nat -> (fst (random_choice n s) < n)%nat) ->
  evs <> [] ->
  select epsilon evs g = Ok (k, explored, g') -> (k < length evs)%nat.
Proof.
  intros Hchoice Hne. unfold select.
  destruct (random_random g) as [u g1]. destruct (Qltb u epsilon).
  - assert (Hpos : (0 < length evs)%nat)
      by (destruct evs; [congruence | cbn; lia]).
    specialize (Hchoice (length evs) g1 Hpos).
    destruct (random_choice (length evs) g1) as [k' g2]. cbn [fst] in Hchoice.
    intros [= <- <- <-]. exact Hchoice.
  - intros H. apply bind_Ok in H as (k' & Hk & [= <- <- <-]).
    apply argmax_first_max in Hk as (x & Hx & _).
    apply lookup_lt_Some in Hx. rewrite length_map in Hx. exact Hx.
Qed.

Lemma select_total (epsilon : Q) (evs : list RandomEvent) (g : PyRng) :
  evs <> [] -> exists r, select epsilon evs g = Ok r.
Proof.
  intros Hne. unfold select.
  destruct (random_random g) as [u g1]. destruct (Qltb u epsilon).
  - destruct (random_choice (length evs) g1). eauto.
  - destruct (argmax_nonempty (map estimate evs)) as [k ->]; [|cbn; eauto].
    destruct evs; [congruence | discriminate].
Qed.

Lemma body_total (t : nat) (st : RunState) :
  (forall n s, (0 < n)%nat -> (fst (random_choice n s) < n)%nat) ->
  events st <> [] ->
  exists st', body t st = Ok st' /\ events st' <> [].
Proof.
  intros Hchoice Hne. rewrite body_tally.
  rewrite epsilon_func_Ok by lia. cbn [bind].
  destruct (select_total (initial_epsilon (self st) / (0.01 * inject_Z (Z.of_nat t) + 1))
              (events st) (py st) Hne) as [[[k ex] g] Hsel].
  rewrite Hsel. cbn [bind].
  pose proof (select_in_range _ _ _ _ _ _ Hchoice Hne Hsel) as Hk.
  destruct (lookup_lt_is_Some_2 _ _ Hk) as [ev ->].
  destruct (pull ev (np st)) as [[res ev1] npg].
  eexists. split; [reflexivity|]. cbn [events].
  intros Heq. apply (f_equal length) in Heq.
  rewrite length_insert in Heq. destruct (events st); [congruence | discriminate].
Qed.

Lemma for_each_body_total (ts : list nat) :
  (forall n s, (0 < n)%nat -> (fst (random_choice n s) < n)%nat) ->
  forall st : RunState,
    events st <> [] -> exists st', for_each body ts st = Ok st'.
Proof.
  intros Hchoice. induction ts as [|t ts IH]; intros st Hne; cbn [for_each].
  - eauto.
  - destruct (body_total t st Hchoice Hne) as (s1 & -> & Hne1). cbn [bind].
    apply IH, Hne1.
Qed.

Lemma run_completes (e : Experiment) (g : PyRng) (npg : NpRng) :
  (forall n s, (0 < n)%nat -> (fst (random_choice n s) < n)%nat) ->
  probs e <> [] -> (0 <= iterations e)%Z ->
  exists out, run e g npg = Ok out.
Proof.
  intros Hchoice Hne Hn. unfold run.
  destruct (argmax_nonempty _ Hne) as [oi ->]. cbn [bind].
  unfold np_zeros. destruct (Z.ltb_spec (iterations e) 0); [lia|]. cbn [bind].
  apply for_each_body_total; [exact Hchoice|]. cbn [events].
  destruct (probs e); [congruence | discriminate].
Qed.

(** *** What [run] raises *)




End BanditProperties.

(** ** Runs on the scripted generator *)

Lemma script_uniform_range (s : script) : 0 <= fst (script_uniform s) < 1.
Proof.
  unfold script_uniform. destruct (next s) as [k s']. cbn [fst].
  pose proof (Nat.mod_upper_bound k 100 ltac:(lia)) as Hk.
  unfold Qle, Qlt. cbn. lia.
Qed.

Lemma script_choice_range (n : nat) (s : script) :
  (0 < n)%nat -> (fst (script_choice n s) < n)%nat.
Proof.
  intros Hn. unfold script_choice. destruct (next s) as [k s']. cbn [fst].
  apply Nat.mod_upper_bound. lia.
Qed.

Lemma script_run_completes (e : Experiment) (g npg : script) :
  probs e <> [] -> (0 <= iterations e)%Z ->
  exists out, script_run e g npg = Ok out.
Proof. apply run_completes, script_choice_range. Qed.

Example demo_run : script_run demo demo_py demo_np = Ok demo_out.
Proof. vm_compute. reflexivity. Qed.

Example demo_counters :
  num_explored (self demo_out) = 2%nat /\
  num_exploited (self demo_out) = 2%nat /\
  num_optimal (self demo_out) = 3%nat /\
  map N (events demo_out) = [0; 1; 3]%nat.
Proof. vm_compute. repeat split. Qed.

(** C2, as stated, fails for a second [run] of the same [Experiment]
    object: it starts from the counters the first one left, and with four
    iterations each [num_explored + num_exploited] ends at eight. *)
Lemma rerun_counters_exceed_iterations :
  exists out2,
    script_run demo demo_py demo_np = Ok demo_out /\
    script_run (self demo_out) (py demo_out) (np demo_out) = Ok out2 /\
    iterations (self demo_out) = 4%Z /\
    (num_explored (self out2) + num_exploited (self out2))%nat = 8%nat /\
    Z.of_nat (num_explored (self out2) + num_exploited (self out2))
    <> iterations (self demo_out).
Proof.
  eexists. split; [vm_compute; reflexivity|].
  split; [vm_compute; reflexivity|].
  split; [reflexivity|]. split; [reflexivity|]. vm_compute. discriminate.
Qed.

Lemma run_explored_plus_exploited_witness :
  script_run demo demo_py demo_np = Ok demo_out /\
  Z.of_nat (num_explored (self demo_out) + num_exploited (self demo_out))
  = (Z.of_nat (num_explored demo + num_exploited demo) + iterations demo)%Z
  /\ (num_explored demo = 0%nat -> num_exploited demo = 0%nat ->
      Z.of_nat (num_explored (self demo_out) + num_exploited (self demo_out))
      = iterations demo).
Proof.
  split; [vm_compute; reflexivity|].
  apply (run_explored_plus_exploited script script
           script_uniform script_choice script_uniform
           demo demo_py demo_np demo_out).
  vm_compute; reflexivity.
Defined.



Lemma num_optimal_counts_optimal_selections_witness :
  script_run demo demo_py demo_np = Ok demo_out /\
  num_optimal demo = 0%nat /\
  (Z.of_nat (num_optimal (self demo_out)) <= iterations demo)%Z.
Proof.
  split; [vm_compute; reflexivity|]. split; [reflexivity|].
  apply (proj2 (num_optimal_counts_optimal_selections script script
                  script_uniform script_choice script_uniform)
           demo demo_py demo_np demo_out).
  - vm_compute; reflexivity.
  - reflexivity.
Defined.

Lemma zero_epsilon_never_explores_witness :
  (forall s, 0 <= fst (script_uniform s) < 1) /\
  initial_epsilon demo_greedy == 0 /\
  script_run demo_greedy demo_py demo_np = Ok demo_greedy_out /\
  (forall t v,
      epsilon_func (initial_epsilon demo_greedy) (Z.of_nat t) = Ok v -> v == 0)
  /\ num_explored (self demo_greedy_out) = num_explored demo_greedy
  /\ (num_explored demo_greedy = 0%nat ->
      num_explored (self demo_greedy_out) = 0%nat)
  /\ Z.of_nat (num_exploited (self demo_greedy_out))
     = (Z.of_nat (num_exploited demo_greedy) + iterations demo_greedy)%Z.
Proof.
  split; [exact script_uniform_range|].
  split; [reflexivity|]. split; [vm_compute; reflexivity|].
  apply (zero_epsilon_never_explores script script
           script_uniform script_choice script_uniform
           demo_greedy demo_py demo_np demo_greedy_out).
  - exact script_uniform_range.
  - reflexivity.
  - vm_compute; reflexivity.
Defined.

Lemma argmax_breaks_ties_by_first_occurrence_witness :
  (probs (Experiment_init [0.5; 0.75; 0.75] 0.1 4) <> [] /\
   exists oi,
     argmax (probs (Experiment_init [0.5; 0.75; 0.75] 0.1 4)) = Ok oi /\
     is_first_max (probs (Experiment_init [0.5; 0.75; 0.75] 0.1 4)) oi /\
     forall g npg out,
       script_run (Experiment_init [0.5; 0.75; 0.75] 0.1 4) g npg = Ok out ->
       optimal_index out = oi) /\
  (body script script script_uniform script_choice script_uniform
     1 demo_st1 = Ok demo_st2 /\
   map estimate (events demo_st1) = [0; 0; 1] /\
   Qltb (fst (script_uniform (py demo_st1))) (0.1 / (0.01 * inject_Z 1 + 1))
   = false /\
   exists epsilon k explored g' ev res,
     epsilon_func (initial_epsilon (self demo_st1)) (Z.of_nat 1)
     = Ok epsilon /\
     select script script_uniform script_choice epsilon
       (events demo_st1) (py demo_st1)
     = Ok (k, explored, g') /\
     explored = Qltb (fst (script_uniform (py demo_st1))) epsilon /\
     events demo_st1 !! k = Some ev /\
     events demo_st2 = <[k := update (b2q res) ev]> (events demo_st1) /\
     (explored = false ->
      is_first_max (map estimate (events demo_st1)) k /\
      num_exploited (self demo_st2) = S (num_exploited (self demo_st1)) /\
      num_explored (self demo_st2) = num_explored (self demo_st1))) /\
  (script_run demo demo_py demo_np = Ok demo_out /\
   (1 < Z.to_nat (iterations demo))%nat /\
   exists st st',
     script_run_upto 1 demo demo_py demo_np = Ok st /\
     body script script script_uniform script_choice script_uniform 1 st
     = Ok st' /\
     script_run_upto 2 demo demo_py demo_np = Ok st' /\
     initial_epsilon (self st) = initial_epsilon demo /\
     script_run_upto (Z.to_nat (iterations demo)) demo demo_py demo_np
     = Ok demo_out).
Proof.
  pose proof (argmax_breaks_ties_by_first_occurrence script script
                script_uniform script_choice script_uniform)
    as (Hoi & Hbody & Hrun).
  split; [split; [discriminate | apply Hoi; discriminate]|]. split.
  - assert (Hb : body script script script_uniform script_choice
                   script_uniform 1 demo_st1 = Ok demo_st2)
      by (vm_compute; reflexivity).
    split; [exact Hb|]. split; [vm_compute; reflexivity|].
    split; [vm_compute; reflexivity|]. apply Hbody, Hb.
  - assert (H : script_run demo demo_py demo_np = Ok demo_out)
      by (vm_compute; reflexivity).
    assert (Ht : (1 < Z.to_nat (iterations demo))%nat) by (vm_compute; lia).
    split; [exact H|]. split; [exact Ht|].
    apply (Hrun demo demo_py demo_np demo_out 1%nat H Ht).
Defined.

(** Iteration 1 of the example exploits: the estimates are 0, 0 and 1, and
    the arm chosen is the third. With [initial_epsilon = 0] iteration 0
    exploits as well, on estimates that are all 0, and chooses the first
    arm. *)
Example demo_iteration_1_exploits :
  exists st g',
    script_run_upto 1 demo demo_py demo_np = Ok st /\
    map estimate (events st) = [0; 0; 1] /\
    select script script_uniform script_choice
      (0.1 / (0.01 * inject_Z 1 + 1)) (events st) (py st)
    = Ok (2%nat, false, g').
Proof.
  eexists. eexists. split; [vm_compute; reflexivity|].
  split; vm_compute; reflexivity.
Qed.

Example demo_greedy_iteration_0_exploits :
  exists st g',
    script_run_upto 0 demo_greedy demo_py demo_np = Ok st /\
    map estimate (events st) = [0; 0; 0] /\
    select script script_uniform script_choice
      (0 / (0.01 * inject_Z 0 + 1)) (events st) (py st)
    = Ok (0%nat, false, g').
Proof.
  eexists. eexists. split; [vm_compute; reflexivity|].
  split; vm_compute; reflexivity.
Qed.

Lemma pulls_add_up_to_iterations_witness :
  script_run demo demo_py demo_np = Ok demo_out /\
  Z.of_nat (sum_list_with N (events demo_out)) = iterations demo /\
  forall i ev,
    events demo_out !! i = Some ev ->
    length (history ev) = N ev /\
    forall k p, history ev !! k = Some p -> fst p = S k.
Proof.
  split; [vm_compute; reflexivity|].
  apply (proj2 (pulls_add_up_to_iterations script script
                  script_uniform script_choice script_uniform)
           demo demo_py demo_np demo_out).
  vm_compute; reflexivity.
Defined.

(** C6, as stated, fails for the counters: run a second time with the same
    configuration and both generators set back to the same states, the same
    [Experiment] object ends with the same arms and outcomes, but with
    counters 4, 4, 6 where the first run ended with 2, 2, 3. *)
Lemma rerun_same_seed_counters_differ :
  exists out2,
    script_run demo demo_py demo_np = Ok demo_out /\
    script_run (self demo_out) demo_py demo_np = Ok out2 /\
    probs (self demo_out) = probs demo /\
    initial_epsilon (self demo_out) = initial_epsilon demo /\
    iterations (self demo_out) = iterations demo /\
    events out2 = events demo_out /\
    results out2 = results demo_out /\
    (num_explored (self demo_out), num_exploited (self demo_out),
     num_optimal (self demo_out)) = (2, 2, 3)%nat /\
    (num_explored (self out2), num_exploited (self out2),
     num_optimal (self out2)) = (4, 4, 6)%nat.
Proof.
  eexists. split; [vm_compute; reflexivity|].
  split; [vm_compute; reflexivity|]. repeat split.
Qed.

Lemma run_is_deterministic_witness :
  probs demo = probs (self demo_out) /\
  initial_epsilon demo = initial_epsilon (self demo_out) /\
  iterations demo = iterations (self demo_out) /\
  match script_run demo demo_py demo_np,
        script_run (self demo_out) demo_py demo_np with
  | Ok o1, Ok o2 =>
      events o1 = events o2 /\
      map history (events o1) = map history (events o2) /\
      results o1 = results o2 /\
      optimal_index o1 = optimal_index o2 /\
      py o1 = py o2 /\ np o1 = np o2 /\
      (num_explored (self o1) + num_explored (self demo_out)
       = num_explored (self o2) + num_explored demo)%nat /\
      (num_exploited (self o1) + num_exploited (self demo_out)
       = num_exploited (self o2) + num_exploited demo)%nat /\
      (num_optimal (self o1) + num_optimal (self demo_out)
       = num_optimal (self o2) + num_optimal demo)%nat /\
      (num_explored demo = num_explored (self demo_out) ->
       num_exploited demo = num_exploited (self demo_out) ->
       num_optimal demo = num_optimal (self demo_out) ->
       o1 = o2)
  | Raise x1, Raise x2 => x1 = x2
  | _, _ => False
  end.
Proof.
  split; [reflexivity|]. split; [reflexivity|]. split; [reflexivity|].
  apply (run_is_deterministic script script
           script_uniform script_choice script_uniform
           demo (self demo_out) demo_py demo_np); reflexivity.
Defined.

(** * Further properties *)

(** ** Arms *)

Lemma Qmult_le_1_bound (x d : Q) : 0 < d -> 0 <= x * d <= d -> 0 <= x <= 1.
Proof.
  intros Hd [Hlo Hhi]. split.
  - apply (Qmult_le_r _ _ d Hd). lra.
  - apply (Qmult_le_r _ _ d Hd). lra.
Qed.

Lemma update_estimate_bounds (r : Q) (ev : RandomEvent) :
  0 <= r <= 1 -> 0 <= estimate ev <= 1 -> 0 <= estimate (update r ev) <= 1.
Proof.
  intros Hr [Hlo Hhi].
  pose proof (update_sum r ev) as Hs.
  pose proof (of_nat_nonneg (N ev)) as Hn.
  pose proof (of_nat_S_pos (N ev)) as Hpos.
  pose proof (of_nat_S (N ev)) as HS.
  assert (H1 : 0 <= estimate ev * of_nat (N ev))
    by (apply Qmult_le_0_compat; assumption).
  assert (H2 : estimate ev * of_nat (N ev) <= 1 * of_nat (N ev))
    by (apply Qmult_le_compat_r; assumption).
  apply (Qmult_le_1_bound _ (of_nat (S (N ev))) Hpos).
  change (N (update r ev)) with (S (N ev)) in Hs. lra.
Qed.

Lemma b2q_bounds (b : bool) : 0 <= b2q b <= 1.
Proof. destruct b; cbn; lra. Qed.

Lemma feed_estimate_bounds (l : list Q) (ev : RandomEvent) :
  Forall (fun r => 0 <= r <= 1) l -> 0 <= estimate ev <= 1 ->
  0 <= estimate (feed l ev) <= 1.
Proof.
  induction l as [|r l IH] using rev_ind; intros Hl Hev; [exact Hev|].
  apply Forall_app in Hl as [Hl Hr]. apply Forall_inv in Hr.
  rewrite feed_snoc. apply update_estimate_bounds; [exact Hr | exact (IH Hl Hev)].
Qed.

(** X1. Whatever the outcomes fed to a new arm, zeros and ones in any
    number and order, [estimate] stays between 0 and 1. *)
Theorem estimate_stays_in_unit_interval (w : Q) (outcomes : list bool) :
  0 <= estimate (feed (map b2q outcomes) (RandomEvent_init w)) <= 1.
Proof.
  apply feed_estimate_bounds; [|cbn; lra].
  induction outcomes as [|b l IH]; constructor; [apply b2q_bounds | exact IH].
Qed.

Lemma feed_app (l1 l2 : list Q) (ev : RandomEvent) :
  feed (l1 ++ l2) ev = feed l2 (feed l1 ev).
Proof. unfold feed. apply foldl_app. Qed.

Lemma feed_history_length (l : list Q) (ev : RandomEvent) :
  length (history (feed l ev)) = (length (history ev) + length l)%nat.
Proof.
  induction l as [|r l IH] using rev_ind.
  - cbn. lia.
  - rewrite feed_snoc. cbn [update history]. rewrite !length_app, IH. cbn. lia.
Qed.

Lemma feed_history_prefix (l : list Q) (ev : RandomEvent) :
  history ev `prefix_of` history (feed l ev).
Proof.
  induction l as [|r l IH] using rev_ind; [reflexivity|].
  rewrite feed_snoc. cbn [update history].
  etransitivity; [exact IH | apply prefix_app_r; reflexivity].
Qed.

(** X2. [history] is append-only and records the running estimate: after
    feeding [outcomes] to any arm, the entries the arm had are still in
    place, and the [k]-th new entry holds the pull count and the estimate
    the arm had right after the [k]-th of these updates. *)
Theorem history_records_each_update
    (outcomes : list Q) (ev : RandomEvent) (k : nat) :
  (k < length outcomes)%nat ->
  history ev `prefix_of` history (feed outcomes ev) /\
  history (feed outcomes ev) !! (length (history ev) + k)%nat
  = Some (S (N ev + k), estimate (feed (take (S k) outcomes) ev)).
Proof.
  intros Hk. split; [apply feed_history_prefix|].
  revert k Hk. induction outcomes as [|r l IH] using rev_ind; intros k Hk.
  - cbn in Hk. lia.
  - rewrite length_app in Hk. cbn in Hk.
    rewrite feed_snoc. cbn [update history].
    destruct (decide (k < length l)%nat) as [Hlt|Hge].
    + rewrite lookup_app_l by (rewrite feed_history_length; lia).
      rewrite take_app_le by lia. apply IH, Hlt.
    + assert (k = length l) as -> by lia.
      rewrite lookup_app_r by (rewrite feed_history_length; lia).
      rewrite feed_history_length.
      replace (length (history ev) + length l
               - (length (history ev) + length l))%nat with 0%nat by lia.
      rewrite take_ge by (rewrite length_app; cbn; lia).
      rewrite feed_snoc.
      change (Some (S (N (feed l ev)), estimate (update r (feed l ev)))
              = Some (S (N ev + length l), estimate (update r (feed l ev)))).
      rewrite feed_N. reflexivity.
Qed.

Lemma history_records_each_update_witness :
  (1 < length [1; 0; 1]%Q)%nat /\
  history (RandomEvent_init 0.5)
    `prefix_of` history (feed [1; 0; 1] (RandomEvent_init 0.5)) /\
  history (feed [1; 0; 1] (RandomEvent_init 0.5))
    !! (length (history (RandomEvent_init 0.5%Q)) + 1)%nat
  = Some (S (N (RandomEvent_init 0.5%Q) + 1),
          estimate (feed (take 2 [1; 0; 1]) (RandomEvent_init 0.5))).
Proof.
  split; [cbn; lia|].
  apply (history_records_each_update [1; 0; 1] (RandomEvent_init 0.5) 1).
  cbn; lia.
Defined.

(** X3. In exact arithmetic, for an arm with earlier pulls and outcomes
    that are any numbers, [update] still keeps a mean: the estimate after
    feeding a non-empty [outcomes] is the old estimate weighted by the old
    pull count, plus the new outcomes, over the new pull count. (In
    binary64 each update rounds: see [update_rnd].) *)
Theorem update_keeps_weighted_mean (outcomes : list Q) (ev : RandomEvent) :
  outcomes <> [] ->
  N (feed outcomes ev) = (N ev + length outcomes)%nat /\
  estimate (feed outcomes ev)
  == (estimate ev * of_nat (N ev) + Qsum outcomes)
     / of_nat (N ev + length outcomes).
Proof.
  intros Hne. split; [apply feed_N|].
  pose proof (feed_sum outcomes ev) as Hs. rewrite feed_N in Hs.
  assert (Hpos : 0 < of_nat (N ev + length outcomes)).
  { destruct outcomes as [|x l]; [congruence|]. cbn [length].
    replace (N ev + S (length l))%nat with (S (N ev + length l)) by lia.
    apply of_nat_S_pos. }
  rewrite <- Hs. field. lra.
Qed.

Lemma update_keeps_weighted_mean_witness :
  [1; 1] <> [] /\
  N (feed [1; 1] (feed [0; 1] (RandomEvent_init 0.5)))
  = (N (feed [0; 1]%Q (RandomEvent_init 0.5%Q)) + length [1; 1]%Q)%nat /\
  estimate (feed [1; 1] (feed [0; 1] (RandomEvent_init 0.5)))
  == (estimate (feed [0; 1] (RandomEvent_init 0.5))
      * of_nat (N (feed [0; 1] (RandomEvent_init 0.5))) + Qsum [1; 1])
     / of_nat (N (feed [0; 1]%Q (RandomEvent_init 0.5%Q)) + length [1; 1]%Q).
Proof.
  split; [discriminate|].
  apply (update_keeps_weighted_mean [1; 1] (feed [0; 1] (RandomEvent_init 0.5))).
  discriminate.
Defined.

(** ** The running mean in binary64 *)

Lemma round_half_even_error (x : Q) :
  - (1 # 2) <= inject_Z (round_half_even x) - x <= 1 # 2.
Proof.
  unfold round_half_even.
  pose proof (Qfloor_le x) as Hlo. pose proof (Qlt_floor x) as Hhi.
  rewrite inject_Z_plus in Hhi. change (inject_Z 1) with 1 in Hhi.
  destruct (Qcompare_spec (x - inject_Z (Qfloor x)) (1 # 2)) as [He|Hl|Hg].
  - destruct (Z.even (Qfloor x)).
    + lra.
    + rewrite inject_Z_plus. change (inject_Z 1) with 1. lra.
  - lra.
  - rewrite inject_Z_plus. change (inject_Z 1) with 1. lra.
Qed.

Lemma two_power_inject (n : Z) : (0 <= n)%Z -> 2 ^ n == inject_Z (2 ^ n).
Proof. intros Hn. rewrite Zpower_Qpower by exact Hn. reflexivity. Qed.

Lemma two_power_pos (n : Z) : 0 < 2 ^ n.
Proof. apply Qpower_0_lt. reflexivity. Qed.

(** [p / q] lies between [2^(log2 p - log2 q - 1)] and
    [2^(log2 p - log2 q + 1)]. *)
Lemma log2_quotient_bounds (p : Z) (q : positive) :
  (0 < p)%Z ->
  2 ^ (Z.log2 p - Z.log2 (Zpos q) - 1) <= p # q /\
  p # q < 2 ^ (Z.log2 p - Z.log2 (Zpos q) + 1).
Proof.
  intros Hp.
  pose proof (Z.log2_spec p Hp) as [Hp1 Hp2].
  pose proof (Z.log2_spec (Zpos q) ltac:(lia)) as [Hq1 Hq2].
  pose proof (Z.log2_nonneg p) as Hlp.
  pose proof (Z.log2_nonneg (Zpos q)) as Hlq.
  set (lp := Z.log2 p) in *. set (lq := Z.log2 (Zpos q)) in *.
  assert (Hq0 : 0 < inject_Z (Zpos q)).
  { change 0 with (inject_Z 0). rewrite <- Zlt_Qlt. lia. }
  rewrite (Qmake_Qdiv p q). split.
  - replace (lp - lq - 1)%Z with (lp - Z.succ lq)%Z by lia.
    rewrite Qpower_minus by discriminate.
    apply Qle_shift_div_r; [apply two_power_pos|].
    unfold Qdiv. rewrite <- Qmult_assoc, (Qmult_comm (/ _)), Qmult_assoc.
    apply Qle_shift_div_l; [exact Hq0|].
    rewrite !two_power_inject by lia.
    rewrite <- !inject_Z_mult, <- Zle_Qle. nia.
  - replace (lp - lq + 1)%Z with (Z.succ lp - lq)%Z by lia.
    rewrite Qpower_minus by discriminate.
    apply Qlt_shift_div_l; [apply two_power_pos|].
    unfold Qdiv. rewrite <- Qmult_assoc, (Qmult_comm (/ _)), Qmult_assoc.
    apply Qlt_shift_div_r; [exact Hq0|].
    rewrite !two_power_inject by lia.
    rewrite <- !inject_Z_mult, <- Zlt_Qlt. nia.
Qed.

Lemma ilog2_spec (x : Q) : 0 < x -> 2 ^ ilog2 x <= x /\ x < 2 ^ (ilog2 x + 1).
Proof.
  intros Hx. destruct x as [p q].
  assert (Hp : (0 < p)%Z) by (unfold Qlt in Hx; cbn in Hx; lia).
  pose proof (log2_quotient_bounds p q Hp) as [Hlo Hhi].
  unfold ilog2. cbn [Qnum Qden].
  set (c := (Z.log2 p - Z.log2 (Zpos q))%Z) in *.
  destruct (Qle_bool (2 ^ c) (p # q)) eqn:E.
  - apply Qle_bool_iff in E. split; [exact E | exact Hhi].
  - split; [exact Hlo|].
    replace (c - 1 + 1)%Z with c by lia.
    apply Qnot_le_lt. intros Hle. apply Qle_bool_iff in Hle. congruence.
Qed.

Lemma Qabs_bound (x B : Q) : - B <= x <= B -> Qabs x <= B.
Proof. intros H. apply Qabs_Qle_condition. exact H. Qed.

Lemma Qabs_pos_lt (x : Q) : ~ x == 0 -> 0 < Qabs x.
Proof.
  intros Hx. apply Qabs_case; intros H.
  - destruct (Qlt_le_dec 0 x) as [|Hle]; [assumption|].
    exfalso. apply Hx. lra.
  - destruct (Qlt_le_dec x 0) as [|Hle]; [lra|].
    exfalso. apply Hx. lra.
Qed.

(** Rounding to 53 significant bits moves a number by at most [u53] of its
    magnitude. *)
Lemma rnd53_error (x : Q) : Qabs (rnd53 x - x) <= u53 * Qabs x.
Proof.
  unfold rnd53. destruct (Qeq_bool x 0) eqn:E.
  - apply Qeq_bool_eq in E. rewrite E. cbn. discriminate.
  - assert (Hx : ~ x == 0).
    { intros H. apply Qeq_eq_bool in H. congruence. }
    pose proof (Qabs_pos_lt x Hx) as Hpos.
    pose proof (ilog2_spec (Qabs x) Hpos) as [Hlo _].
    set (il := ilog2 (Qabs x)) in *.
    pose proof (two_power_pos (il - 52)) as HP.
    assert (HPle : 2 ^ (il - 52) * 4503599627370496 <= Qabs x).
    { rewrite Qpower_minus by discriminate.
      assert (HK : 2 ^ 52 == 4503599627370496) by reflexivity.
      rewrite HK.
      assert (Hf : 2 ^ il / 4503599627370496 * 4503599627370496 == 2 ^ il)
        by field.
      rewrite Hf. exact Hlo. }
    set (P := 2 ^ (il - 52)) in *.
    pose proof (round_half_even_error (x / P)) as [Hd1 Hd2].
    set (R := inject_Z (round_half_even (x / P))) in *.
    assert (Heq : R * P - x == (R - x / P) * P) by (field; lra).
    assert (Hup : (R - x / P) * P <= (1 # 2) * P)
      by (apply Qmult_le_compat_r; lra).
    assert (Hdn : - (1 # 2) * P <= (R - x / P) * P)
      by (apply Qmult_le_compat_r; lra).
    apply Qabs_bound. rewrite Heq. unfold u53. split; lra.
Qed.

Section Rounding.

Variable rnd : Q -> Q.
Variable u : Q.
Hypothesis u_small : 0 <= u <= 1 # 4.
Hypothesis rnd_error : forall x, Qabs (rnd x - x) <= u * Qabs x.

Lemma scale_within (x q B : Q) :
  - B <= x <= B -> 0 <= q <= 1 -> - B <= x * q <= B.
Proof.
  intros [Hlo Hhi] [Hq0 Hq1].
  assert (HB : 0 <= B) by lra.
  assert (H1 : x * q <= B * q) by (apply Qmult_le_compat_r; assumption).
  assert (H2 : - B * q <= x * q) by (apply Qmult_le_compat_r; lra).
  assert (H3 : B * q <= B * 1).
  { rewrite !(Qmult_comm B). apply Qmult_le_compat_r; assumption. }
  lra.
Qed.

Lemma rnd_within (x B : Q) :
  - B <= x <= B -> - (u * B) <= rnd x - x <= u * B.
Proof.
  intros Hx. apply Qabs_Qle_condition.
  eapply Qle_trans; [apply rnd_error|].
  rewrite !(Qmult_comm u). apply Qmult_le_compat_r; [|apply u_small].
  apply Qabs_Qle_condition. exact Hx.
Qed.

(** One rounded update against one exact update: the distance between the
    two estimates grows by at most [14 * u]. *)
Lemma update_rnd_step (est m r q E : Q) :
  0 <= E <= 1 -> - E <= est - m <= E -> 0 <= m <= 1 -> 0 <= r <= 1 ->
  0 < q <= 1 ->
  - (E + 14 * u)
  <= rnd (est + rnd (rnd (r - est) * q)) - (m + (r - m) * q)
  <= E + 14 * u.
Proof.
  intros HE He Hm Hr Hq. pose proof u_small as Hu.
  pose proof (rnd_within (r - est) 3 ltac:(lra)) as H1.
  set (A1 := rnd (r - est)) in *.
  pose proof (scale_within A1 q 4 ltac:(lra) ltac:(lra)) as HA1q.
  pose proof (rnd_within (A1 * q) 4 HA1q) as H2.
  set (B1 := rnd (A1 * q)) in *.
  pose proof (rnd_within (est + B1) 7 ltac:(lra)) as H3.
  set (S1 := rnd (est + B1)) in *.
  pose proof (scale_within (A1 - (r - est)) q (u * 3) H1 ltac:(lra)) as HX.
  pose proof (scale_within (est - m) (1 - q) E He ltac:(lra)) as HY.
  assert (Heq : S1 - (m + (r - m) * q)
                == (S1 - (est + B1)) + (B1 - A1 * q)
                   + (A1 - (r - est)) * q + (est - m) * (1 - q)) by ring.
  rewrite Heq. lra.
Qed.

Lemma feed_rnd_snoc (l : list Q) (r : Q) (ev : RandomEvent) :
  feed_rnd rnd (l ++ [r]) ev = update_rnd rnd r (feed_rnd rnd l ev).
Proof. unfold feed_rnd. rewrite foldl_app. reflexivity. Qed.

Lemma inv_of_nat_S (n : nat) : 0 < / of_nat (S n) <= 1.
Proof.
  pose proof (of_nat_S_pos n) as Hpos. pose proof (of_nat_nonneg n) as Hn.
  pose proof (of_nat_S n) as HS. split.
  - apply Qinv_lt_0_compat, Hpos.
  - apply Qle_shift_inv_r; [exact Hpos | lra].
Qed.

Lemma map_b2q_bounds (l : list bool) :
  Forall (fun r => 0 <= r <= 1) (map b2q l).
Proof. induction l as [|b l IH]; constructor; [apply b2q_bounds | exact IH]. Qed.

(** Fed the same outcomes, the rounded and the exact estimate of a new arm
    stay within [14 * u] per update of each other, as long as that distance
    is at most 1. *)
Lemma feed_rnd_error (w : Q) (l : list bool) :
  14 * u * of_nat (length l) <= 1 ->
  N (feed_rnd rnd (map b2q l) (RandomEvent_init w))
  = N (feed (map b2q l) (RandomEvent_init w)) /\
  - (14 * u * of_nat (length l))
  <= estimate (feed_rnd rnd (map b2q l) (RandomEvent_init w))
     - estimate (feed (map b2q l) (RandomEvent_init w))
  <= 14 * u * of_nat (length l).
Proof.
  pose proof u_small as Hu.
  induction l as [|x l IH] using rev_ind; intros Hlen.
  - split; [reflexivity|].
    change (of_nat (length [])) with 0.
    change (estimate (feed_rnd rnd (map b2q []) (RandomEvent_init w))) with 0.
    change (estimate (feed (map b2q []) (RandomEvent_init w))) with 0.
    lra.
  - rewrite length_app in Hlen |- *. cbn [length] in Hlen |- *.
    replace (length l + 1)%nat with (S (length l)) in Hlen |- * by lia.
    pose proof (of_nat_S (length l)) as HS.
    pose proof (of_nat_nonneg (length l)) as Hn.
    assert (Hu' : 0 <= 14 * u * of_nat (length l)).
    { apply Qmult_le_0_compat; lra. }
    assert (Hprev : 14 * u * of_nat (length l) <= 1).
    { rewrite HS in Hlen. lra. }
    destruct (IH Hprev) as [HN He].
    rewrite map_app. cbn [map]. rewrite feed_rnd_snoc, feed_snoc.
    set (a := feed_rnd rnd (map b2q l) (RandomEvent_init w)) in *.
    set (b := feed (map b2q l) (RandomEvent_init w)) in *.
    split; [cbn [update_rnd update N]; rewrite HN; reflexivity|].
    cbn [update_rnd update estimate]. rewrite HN. unfold Qdiv.
    assert (Hm : 0 <= estimate b <= 1).
    { apply feed_estimate_bounds; [apply map_b2q_bounds | cbn; lra]. }
    pose proof (update_rnd_step (estimate a) (estimate b) (b2q x)
                  (/ of_nat (S (N b))) (14 * u * of_nat (length l))
                  ltac:(lra) He Hm (b2q_bounds x) (inv_of_nat_S (N b))) as Hs.
    rewrite HS. lra.
Qed.

End Rounding.

Lemma u53_small : 0 <= u53 <= 1 # 4.
Proof. unfold u53. split; [discriminate | vm_compute; discriminate]. Qed.

(** The rounded arithmetic is that of the kernel's binary64 floats: for
    every sequence of at most seven outcomes, the estimate computed with
    [rnd53] is the number the float computation of [Binary64] ends with. *)
Lemma rounded_update_is_binary64 :
  forallb agrees (flat_map sequences (seq 0 8)) = true.
Proof. vm_compute. reflexivity. Qed.

(** C1. Feeding a sequence of binary outcomes to a new arm, one [update]
    per outcome: after each call, the [k]-th for every [k] from 1 to the
    length of the sequence, [estimate] is the arithmetic mean of the
    outcomes seen so far: exactly so when the arithmetic is exact, and
    within [14 * k * 2^-53] of it in binary64, where every operation of
    [update] rounds (for [k] up to [2^49]). *)
Theorem update_estimate_is_mean_up_to_rounding
    (w : Q) (outcomes : list bool) (k : nat) :
  (1 <= k <= length outcomes)%nat ->
  (Z.of_nat k <= 2 ^ 49)%Z ->
  estimate (feed (map b2q (take k outcomes)) (RandomEvent_init w))
  == mean (map b2q (take k outcomes)) /\
  Qabs (estimate (feed_rnd rnd53 (map b2q (take k outcomes))
                    (RandomEvent_init w))
        - mean (map b2q (take k outcomes)))
  <= 14 * of_nat k * u53.
Proof.
  intros Hk Hmax.
  pose proof (update_estimate_is_mean w outcomes k Hk) as Hexact.
  split; [exact Hexact|].
  assert (Hlen : length (take k outcomes) = k) by (rewrite length_take; lia).
  assert (Hof : of_nat k <= 562949953421312).
  { unfold of_nat. change 562949953421312 with (inject_Z (2 ^ 49)).
    rewrite <- Zle_Qle. exact Hmax. }
  pose proof (feed_rnd_error rnd53 u53 u53_small rnd53_error w
                (take k outcomes)) as Herr.
  rewrite Hlen in Herr. unfold u53 in *.
  destruct (Herr ltac:(lra)) as [_ He].
  apply Qabs_Qle_condition. rewrite <- Hexact. lra.
Qed.

Lemma update_estimate_is_mean_up_to_rounding_witness :
  (1 <= 3 <= length [true; false; false; true])%nat /\
  (Z.of_nat 3 <= 2 ^ 49)%Z /\
  estimate (feed (map b2q (take 3 [true; false; false; true]))
              (RandomEvent_init 0.5))
  == mean (map b2q (take 3 [true; false; false; true])) /\
  Qabs (estimate (feed_rnd rnd53 (map b2q (take 3 [true; false; false; true]))
                    (RandomEvent_init 0.5))
        - mean (map b2q (take 3 [true; false; false; true])))
  <= 14 * of_nat 3 * u53.
Proof.
  split; [cbn; lia|]. split; [vm_compute; discriminate|].
  apply (update_estimate_is_mean_up_to_rounding 0.5);
    [cbn; lia | vm_compute; discriminate].
Defined.

(** After the outcomes 1, 0, 0 the rounded estimate is the float
    0.33333333333333337, one unit in the last place above the float nearest
    to the mean 1/3. *)
Example rounded_estimate_after_1_0_0 :
  estimate (feed_rnd rnd53 (map b2q [true; false; false]) (RandomEvent_init 0.5))
  == 6004799503160662 # 18014398509481984 /\
  float_to_Q 0x1.5555555555556p-2%float
  = Some (6004799503160662 # 18014398509481984) /\
  rnd53 (1 # 3) == 6004799503160661 # 18014398509481984.
Proof. vm_compute. repeat split. Qed.

(** ** The epsilon schedule, further *)

(** X4. For an [e0] of at least [2^-900] and an iteration index below
    [2^62], bounds within which the quotient cannot underflow in binary64
    either, epsilon is positive and at most [e0]: the schedule does not
    reach zero. *)
Theorem epsilon_func_stays_positive (e0 : Q) (t : Z) :
  1 # (2 ^ 900) <= e0 -> (0 <= t < 2 ^ 62)%Z ->
  exists v, epsilon_func e0 t = Ok v /\ 0 < v <= e0.
Proof.
  intros Hlow [Ht _].
  assert (He0 : 0 < e0).
  { apply (Qlt_le_trans _ (1 # 2 ^ 900)); [reflexivity | exact Hlow]. }
  exists (e0 / (0.01 * inject_Z t + 1)).
  split; [apply epsilon_func_Ok, Ht|].
  pose proof (epsilon_func_denominator t Ht) as Hd. split.
  - apply Qlt_shift_div_l; lra.
  - apply Qle_shift_div_r; [lra|].
    assert (0 <= e0 * (0.01 * inject_Z t))
      by (apply Qmult_le_0_compat; lra).
    lra.
Qed.

Lemma epsilon_func_stays_positive_witness :
  1 # (2 ^ 900) <= 0.1 /\ (0 <= 5000 < 2 ^ 62)%Z /\
  exists v, epsilon_func 0.1 5000 = Ok v /\ 0 < v <= 0.1.
Proof.
  assert (H : 1 # (2 ^ 900) <= 0.1) by (vm_compute; discriminate).
  split; [exact H|]. split; [lia|].
  apply epsilon_func_stays_positive; [exact H | lia].
Defined.

(** X5. [epsilon_func] divides by [0.01 * t + 1], which is zero at
    [t = -100] and nowhere else: among the integers Python converts to a
    float (here those below [2^1023] in absolute value), the call raises
    [ZeroDivisionError] at -100 and returns the quotient at every
    other. *)
Theorem epsilon_func_raises_at_minus_100_only (val : Q) (t : Z) :
  (Z.abs t < 2 ^ 1023)%Z ->
  (t = (-100)%Z -> epsilon_func val t = Raise ZeroDivisionError) /\
  (t <> (-100)%Z ->
   epsilon_func val t = Ok (val / (0.01 * inject_Z t + 1))).
Proof.
  intros _. split.
  - intros ->. reflexivity.
  - intros Hne. unfold epsilon_func.
    destruct (Qeq_bool (0.01 * inject_Z t + 1) 0) eqn:E; [|reflexivity].
    apply Qeq_bool_eq in E. exfalso. apply Hne.
    apply inject_Z_injective. change (inject_Z (-100)) with (-100 # 1). lra.
Qed.

(** ** The loop of [run], with the iteration index *)

(** A property of the index and the state that every iteration carries from
    [t] to [t + 1] holds, at the last index, when the loop is over. *)
Lemma for_each_seq_invariant {St : Type} (f : nat -> St -> result St)
    (P : nat -> St -> Prop) (len : nat) :
  forall (start : nat) (st st' : St),
    (forall t s s',
        (start <= t < start + len)%nat -> P t s -> f t s = Ok s' -> P (S t) s') ->
    P start st ->
    for_each f (seq start len) st = Ok st' ->
    P (start + len)%nat st'.
Proof.
  induction len as [|len IH]; intros start st st' Hstep HP Hrun; cbn in Hrun.
  - injection Hrun as <-. rewrite Nat.add_0_r. exact HP.
  - apply bind_Ok in Hrun as (s1 & Hb & Hrest).
    replace (start + S len)%nat with (S start + len)%nat by lia.
    apply (IH (S start) s1 st'); [| |exact Hrest].
    + intros t s s' Ht. apply Hstep. lia.
    + apply (Hstep start st s1); [lia | exact HP | exact Hb].
Qed.

Lemma Qsum_insert (l : list Q) (t : nat) (x v : Q) :
  l !! t = Some x -> Qsum (<[t := v]> l) + x == Qsum l + v.
Proof.
  revert t. unfold Qsum.
  induction l as [|a l IH]; intros [|t] Ht; try discriminate.
  - injection Ht as ->. cbn. ring.
  - specialize (IH t Ht).
    change (a + foldr Qplus 0 (<[t := v]> l) + x == a + foldr Qplus 0 l + v).
    lra.
Qed.

Lemma Qsum_replicate_0 (n : nat) : Qsum (replicate n 0) == 0.
Proof.
  unfold Qsum. induction n as [|n IH]; cbn; [reflexivity|].
  rewrite IH. ring.
Qed.

Lemma Qsum_binary_bounds (l : list Q) :
  Forall binary l -> 0 <= Qsum l <= of_nat (length l).
Proof.
  unfold Qsum. induction 1 as [|x l Hx Hl IH]; cbn [foldr length].
  - split; [lra | apply of_nat_nonneg].
  - rewrite of_nat_S. destruct Hx as [-> | ->]; lra.
Qed.

Lemma successes_insert (evs : list RandomEvent) (k : nat)
    (ev : RandomEvent) (r : Q) :
  evs !! k = Some ev ->
  successes (<[k := update r ev]> evs) == successes evs + r.
Proof.
  revert k. unfold successes, Qsum.
  induction evs as [|a evs IH]; intros [|k] Hk; try discriminate.
  - injection Hk as ->. cbn [map foldr insert list_insert].
    unfold arm_successes at 1 3. rewrite update_sum. ring.
  - specialize (IH k Hk).
    change (arm_successes a
            + foldr Qplus 0 (map arm_successes (<[k := update r ev]> evs))
            == arm_successes a + foldr Qplus 0 (map arm_successes evs) + r).
    lra.
Qed.

Lemma successes_init (ps : list Q) : successes (map RandomEvent_init ps) == 0.
Proof.
  unfold successes, Qsum. induction ps as [|p ps IH]; cbn; [reflexivity|].
  rewrite IH. unfold arm_successes. cbn. ring.
Qed.

Lemma map_winrate_insert (evs : list RandomEvent) (k : nat)
    (ev : RandomEvent) (r : Q) :
  evs !! k = Some ev ->
  map winrate (<[k := update r ev]> evs) = map winrate evs.
Proof.
  revert k. induction evs as [|a evs IH]; intros [|k] Hk; try discriminate.
  - injection Hk as ->. reflexivity.
  - cbn in Hk. specialize (IH k Hk).
    change (winrate a :: map winrate (<[k := update r ev]> evs)
            = winrate a :: map winrate evs).
    rewrite IH. reflexivity.
Qed.

Lemma map_winrate_init (ps : list Q) : map winrate (map RandomEvent_init ps) = ps.
Proof. induction ps as [|p ps IH]; cbn; [reflexivity | rewrite IH; reflexivity]. Qed.

Lemma Forall_seq_lt (n : nat) : Forall (fun t => (t < n)%nat) (seq 0 n).
Proof. apply Forall_forall. intros t Ht. apply elem_of_seq in Ht. lia. Qed.

Lemma advance_S {G : Type} (draw : G -> Q * G) (n : nat) (g : G) :
  advance draw (S n) g = snd (draw (advance draw n g)).
Proof. reflexivity. Qed.

Lemma b2q_binary (b : bool) : binary (b2q b).
Proof. destruct b; [right | left]; reflexivity. Qed.

Section FurtherRunProperties.

Variables PyRng NpRng : Type.
Variable random_random : PyRng -> Q * PyRng.
Variable random_choice : nat -> PyRng -> nat * PyRng.
Variable np_random_random : NpRng -> Q * NpRng.

Local Abbreviation RunState := (RunState PyRng NpRng).
Local Abbreviation pull := (pull NpRng np_random_random).
Local Abbreviation select := (select PyRng random_random random_choice).
Local Abbreviation body :=
  (body PyRng NpRng random_random random_choice np_random_random).
Local Abbreviation run :=
  (run PyRng NpRng random_random random_choice np_random_random).

(** A property that holds of the state [run] enters its loop with, and that
    iteration [t] carries from [t] to [t + 1], holds at [iterations] of the
    state a completed [run] ends in. *)
Lemma run_indexed_invariant (P : nat -> RunState -> Prop)
    (e : Experiment) (g : PyRng) (npg : NpRng) (out : RunState) :
  run e g npg = Ok out ->
  (forall oi,
      argmax (probs e) = Ok oi -> (0 <= iterations e)%Z ->
      P 0%nat {| self := e; optimal_index := oi;
                 events := map RandomEvent_init (probs e);
                 results := replicate (Z.to_nat (iterations e)) 0;
                 py := g; np := npg |}) ->
  (forall t s s',
      (t < Z.to_nat (iterations e))%nat ->
      P t s -> body t s = Ok s' -> P (S t) s') ->
  P (Z.to_nat (iterations e)) out.
Proof.
  intros H Hinit Hstep. apply run_Ok in H as (oi & Hoi & Hn & Hloop).
  unfold range in Hloop.
  apply (for_each_seq_invariant body P _ 0%nat _ _) in Hloop.
  - exact Hloop.
  - intros t s s' Ht. apply Hstep. lia.
  - apply Hinit; assumption.
Qed.

(** X7. [run] changes nothing of the configuration of its experiment,
    and no counter ever goes down. *)
Theorem run_keeps_configuration
    (e : Experiment) (g : PyRng) (npg : NpRng) (out : RunState) :
  run e g npg = Ok out ->
  probs (self out) = probs e /\
  initial_epsilon (self out) = initial_epsilon e /\
  iterations (self out) = iterations e /\
  (num_explored e <= num_explored (self out))%nat /\
  (num_exploited e <= num_exploited (self out))%nat /\
  (num_optimal e <= num_optimal (self out))%nat.
Proof.
  intros H.
  apply (run_indexed_invariant
           (fun _ s =>
              probs (self s) = probs e /\
              initial_epsilon (self s) = initial_epsilon e /\
              iterations (self s) = iterations e /\
              (num_explored e <= num_explored (self s))%nat /\
              (num_exploited e <= num_exploited (self s))%nat /\
              (num_optimal e <= num_optimal (self s))%nat) e g npg out H).
  - intros oi _ _. cbn [self]. repeat split; lia.
  - intros t s s' _ (Hp & He & Hi & H1 & H2 & H3) Hb.
    apply body_Ok in Hb as (eps & k & ex & g' & ev & r & npg' & Hb).
    destruct Hb as (_ & _ & _ & _ & ->). cbn [self].
    pose proof (tally_config ex k (optimal_index s) (self s)) as (-> & -> & ->).
    pose proof (tally_counters ex k (optimal_index s) (self s)) as (-> & -> & ->).
    repeat split; try assumption; lia.
Qed.

(** X8. The arms of a completed [run] are, in order, one per entry of
    [probs], each with that entry as its win rate. *)
Theorem run_arms_match_probs
    (e : Experiment) (g : PyRng) (npg : NpRng) (out : RunState) :
  run e g npg = Ok out ->
  length (events out) = length (probs e) /\
  map winrate (events out) = probs e.
Proof.
  intros H.
  assert (Hw : map winrate (events out) = probs e).
  { apply (run_indexed_invariant
             (fun _ s => map winrate (events s) = probs e) e g npg out H).
    - intros oi _ _. cbn [events]. apply map_winrate_init.
    - intros t s s' _ Hs Hb.
      apply body_one_update in Hb as (k & ev & r & Hev & ->).
      rewrite (map_winrate_insert _ _ _ _ Hev). exact Hs. }
  split; [|exact Hw]. rewrite <- Hw, length_map. reflexivity.
Qed.

(** What the loop keeps of [results]: its length, zeros and ones only,
    zeros from the current index on, and as many ones as the arms have
    counted successes. *)
Lemma run_results_invariant
    (e : Experiment) (g : PyRng) (npg : NpRng) (out : RunState) :
  run e g npg = Ok out ->
  length (results out) = Z.to_nat (iterations e) /\
  Forall binary (results out) /\
  Qsum (results out) == successes (events out).
Proof.
  intros H. set (n := Z.to_nat (iterations e)).
  set (P := fun (t : nat) (s : RunState) =>
              length (results s) = n /\
              Forall binary (results s) /\
              (forall j, (t <= j < n)%nat -> results s !! j = Some 0) /\
              Qsum (results s) == successes (events s)).
  assert (HP : P n out).
  { apply (run_indexed_invariant P e g npg out H).
    - intros oi _ _. unfold P. cbn [results events].
      split; [apply length_replicate|].
      split; [apply Forall_replicate; left; reflexivity|].
      split; [intros j Hj; apply lookup_replicate_2; lia|].
      rewrite Qsum_replicate_0, successes_init. reflexivity.
    - intros t s s' Ht (Hlen & Hbin & Hzero & Hsum) Hb.
      apply body_Ok in Hb as (eps & k & ex & g' & ev & r & npg' & Hb).
      destruct Hb as (_ & _ & Hev & _ & ->). unfold P. cbn [results events].
      split; [rewrite length_insert; exact Hlen|].
      split; [apply Forall_insert; [exact Hbin | apply b2q_binary]|].
      split.
      + intros j Hj. rewrite list_lookup_insert_ne by lia. apply Hzero. lia.
      + pose proof (Qsum_insert (results s) t 0 (b2q r)
                      (Hzero t ltac:(fold n in Ht; lia))) as Hq.
        rewrite (successes_insert _ _ _ _ Hev). lra. }
  destruct HP as (Hlen & Hbin & _ & Hsum). auto.
Qed.

(** X9. [results] ends with one entry per iteration, each of them 0 or
    1. *)
Theorem run_results_are_binary
    (e : Experiment) (g : PyRng) (npg : NpRng) (out : RunState) :
  run e g npg = Ok out ->
  Z.of_nat (length (results out)) = iterations e /\
  Forall binary (results out).
Proof.
  intros H. pose proof (run_results_invariant e g npg out H) as (Hlen & Hb & _).
  apply run_Ok in H as (_ & _ & Hn & _). split; [lia | exact Hb].
Qed.

(** X10. The successes add up: the ones in [results] are as many as the
    successes the arms have counted, [estimate * N] summed over the arms;
    and with at least one iteration the overall success rate printed at the
    end, the mean of [results], lies between 0 and 1 and is that sum over
    [iterations]. *)
Theorem run_success_accounting
    (e : Experiment) (g : PyRng) (npg : NpRng) (out : RunState) :
  run e g npg = Ok out ->
  Qsum (results out) == successes (events out) /\
  ((0 < iterations e)%Z ->
   0 <= mean (results out) <= 1 /\
   mean (results out) == successes (events out) / inject_Z (iterations e)).
Proof.
  intros H.
  pose proof (run_results_invariant e g npg out H) as (Hlen & Hbin & Hsum).
  split; [exact Hsum|]. intros Hpos.
  pose proof (Qsum_binary_bounds _ Hbin) as Hb. unfold mean.
  assert (Hn : of_nat (length (results out)) == inject_Z (iterations e)).
  { unfold of_nat. rewrite Hlen, Z2Nat.id by lia. reflexivity. }
  assert (Hd : 0 < of_nat (length (results out))).
  { rewrite Hn. change 0 with (inject_Z 0). rewrite <- Zlt_Qlt. exact Hpos. }
  split.
  - split.
    + apply Qle_shift_div_l; [exact Hd | lra].
    + apply Qle_shift_div_r; [exact Hd | lra].
  - rewrite Hsum, Hn. reflexivity.
Qed.

(** X11. The numpy generator is drawn from once per iteration, in [pull],
    and nowhere else: a completed [run] leaves it where [iterations] draws
    of [np.random.random()] take it, whatever the arms chosen. *)
Theorem run_draws_numpy_once_per_iteration
    (e : Experiment) (g : PyRng) (npg : NpRng) (out : RunState) :
  run e g npg = Ok out ->
  np out = advance np_random_random (Z.to_nat (iterations e)) npg.
Proof.
  intros H.
  apply (run_indexed_invariant
           (fun t s => np s = advance np_random_random t npg) e g npg out H).
  - intros oi _ _. reflexivity.
  - intros t s s' _ Hs Hb.
    apply body_Ok in Hb as (eps & k & ex & g' & ev & r & npg' & Hb).
    destruct Hb as (_ & _ & _ & Hpull & ->). cbn [np].
    unfold pull in Hpull. destruct (np_random_random (np s)) as [u g1] eqn:Hu.
    injection Hpull as _ <-.
    rewrite advance_S, <- Hs, Hu. reflexivity.
Qed.

(** A property of arms that new arms have and that [update] keeps, for the
    outcome [pull] gives on the arm, holds of every arm of a completed
    [run]. *)
Lemma run_arm_invariant (I : RandomEvent -> Prop)
    (e : Experiment) (g : PyRng) (npg : NpRng) (out : RunState) :
  (forall w, I (RandomEvent_init w)) ->
  (forall ev s,
      I ev ->
      I (update (b2q (Qltb (fst (np_random_random s)) (winrate ev))) ev)) ->
  run e g npg = Ok out ->
  Forall I (events out).
Proof.
  intros Hinit Hstep H.
  apply (run_indexed_invariant (fun _ s => Forall I (events s)) e g npg out H).
  - intros oi _ _. cbn [events].
    induction (probs e) as [|p ps IH]; constructor; [apply Hinit | exact IH].
  - intros t s s' _ Hs Hb.
    apply body_Ok in Hb as (eps & k & ex & g' & ev & r & npg' & Hb).
    destruct Hb as (_ & _ & Hev & Hpull & ->). cbn [events].
    apply Forall_insert; [exact Hs|].
    unfold pull in Hpull. destruct (np_random_random (np s)) as [u g1] eqn:Hu.
    injection Hpull as <- _.
    replace u with (fst (np_random_random (np s))) by (rewrite Hu; reflexivity).
    apply Hstep, (Forall_lookup_1 _ _ _ _ Hs Hev).
Qed.

(** X12. In exact arithmetic, every estimate of a completed [run] is a
    success frequency: it lies between 0 and 1, and [estimate * N] is a
    whole number of successes, at most [N]. (In binary64 each update
    rounds, and the product need not be whole.) *)
Theorem run_estimates_are_frequencies
    (e : Experiment) (g : PyRng) (npg : NpRng) (out : RunState)
    (i : nat) (ev : RandomEvent) :
  run e g npg = Ok out ->
  events out !! i = Some ev ->
  0 <= estimate ev <= 1 /\
  exists s : nat, (s <= N ev)%nat /\ estimate ev * of_nat (N ev) == of_nat s.
Proof.
  intros H Hev.
  refine (Forall_lookup_1 _ _ _ _ (run_arm_invariant
            (fun ev => 0 <= estimate ev <= 1 /\
                       exists s : nat, (s <= N ev)%nat /\
                         estimate ev * of_nat (N ev) == of_nat s)
            e g npg out _ _ H) Hev).
  - intros w. split; [cbn; lra|]. exists 0%nat. split; [lia | reflexivity].
  - intros a s [Hb (c & Hc & Hs)]. split.
    + apply update_estimate_bounds; [apply b2q_bounds | exact Hb].
    + destruct (Qltb (fst (np_random_random s)) (winrate a)); cbn [b2q].
      * exists (S c). split; [cbn; lia|].
        rewrite update_sum, Hs, of_nat_S. reflexivity.
      * exists c. split; [cbn; lia|]. rewrite update_sum, Hs. ring.
Qed.

(** X13. In a completed [run] an arm that was never pulled is as
    [__init__] made it, and the last entry of the history of any other arm
    is its current pull count and estimate. *)
Theorem run_history_ends_with_estimate
    (e : Experiment) (g : PyRng) (npg : NpRng) (out : RunState)
    (i : nat) (ev : RandomEvent) :
  run e g npg = Ok out ->
  events out !! i = Some ev ->
  (N ev = 0%nat -> ev = RandomEvent_init (winrate ev)) /\
  ((0 < N ev)%nat -> last (history ev) = Some (N ev, estimate ev)).
Proof.
  intros H Hev.
  refine (Forall_lookup_1 _ _ _ _ (run_arm_invariant
            (fun ev => (N ev = 0%nat -> ev = RandomEvent_init (winrate ev)) /\
                       ((0 < N ev)%nat ->
                        last (history ev) = Some (N ev, estimate ev)))
            e g npg out _ _ H) Hev).
  - intros w. split; [reflexivity | cbn; lia].
  - intros a s _. split; [cbn; lia|].
    intros _. cbn [update history N estimate]. apply last_snoc.
Qed.

(** X14. With every draw of [np.random.random()] in [0, 1), an arm that
    cannot win (win rate at most 0) keeps the estimate 0, and an arm that
    cannot lose (win rate at least 1) has the estimate 1 once it has been
    pulled. *)
Theorem run_sure_arms_are_estimated_exactly
    (e : Experiment) (g : PyRng) (npg : NpRng) (out : RunState)
    (i : nat) (ev : RandomEvent) :
  (forall s, 0 <= fst (np_random_random s) < 1) ->
  run e g npg = Ok out ->
  events out !! i = Some ev ->
  (winrate ev <= 0 -> estimate ev == 0) /\
  (1 <= winrate ev -> (0 < N ev)%nat -> estimate ev == 1).
Proof.
  intros Hu H Hev.
  refine (Forall_lookup_1 _ _ _ _ (run_arm_invariant
            (fun ev => (winrate ev <= 0 -> estimate ev == 0) /\
                       (1 <= winrate ev -> (0 < N ev)%nat -> estimate ev == 1))
            e g npg out _ _ H) Hev).
  - intros w. split; [reflexivity | cbn; lia].
  - intros a s [Hlose Hwin]. specialize (Hu s).
    pose proof (update_sum (b2q (Qltb (fst (np_random_random s)) (winrate a))) a)
      as Hs.
    pose proof (of_nat_S_pos (N a)) as Hpos.
    pose proof (of_nat_S (N a)) as HS.
    change (N (update (b2q (Qltb (fst (np_random_random s)) (winrate a))) a))
      with (S (N a)) in Hs.
    change (winrate (update (b2q (Qltb (fst (np_random_random s)) (winrate a))) a))
      with (winrate a).
    set (est' := estimate
                   (update (b2q (Qltb (fst (np_random_random s)) (winrate a))) a))
      in *.
    split.
    + intros Hw. rewrite Qltb_false in Hs by lra. cbn [b2q] in Hs.
      rewrite (Hlose Hw) in Hs.
      apply (Qmult_inj_r _ _ (of_nat (S (N a)))); [lra|]. rewrite Hs. ring.
    + intros Hw _. destruct (Qltb_spec (fst (np_random_random s)) (winrate a))
        as [_|Hge]; [|lra]. cbn [b2q] in Hs.
      apply (Qmult_inj_r _ _ (of_nat (S (N a)))); [lra|]. rewrite Hs.
      destruct (N a) as [|n] eqn:HN.
      * change (of_nat 0) with 0. change (of_nat 1) with 1. ring.
      * rewrite (Hwin Hw ltac:(lia)). rewrite <- HN in *. rewrite HS. ring.
Qed.

(** X15. With a single probability there is nothing to choose: every
    iteration pulls arm 0, which is the optimal one, so [num_optimal]
    advances by [iterations] and the one arm ends with [iterations]
    pulls. *)
Theorem run_single_arm_is_always_optimal
    (e : Experiment) (g : PyRng) (npg : NpRng) (out : RunState) :
  length (probs e) = 1%nat ->
  run e g npg = Ok out ->
  optimal_index out = 0%nat /\
  Z.of_nat (num_optimal (self out))
  = (Z.of_nat (num_optimal e) + iterations e)%Z /\
  exists ev, events out = [ev] /\ Z.of_nat (N ev) = iterations e.
Proof.
  intros Hlen H.
  set (P := fun (t : nat) (s : RunState) =>
              optimal_index s = 0%nat /\
              num_optimal (self s) = (num_optimal e + t)%nat /\
              exists ev, events s = [ev] /\ N ev = t).
  assert (HP : P (Z.to_nat (iterations e)) out).
  { apply (run_indexed_invariant P e g npg out H).
    - intros oi Hoi _. unfold P. cbn [optimal_index self events].
      destruct (probs e) as [|p [|q ps]]; try discriminate.
      cbn in Hoi. injection Hoi as <-.
      split; [reflexivity|]. split; [lia|]. eexists. split; reflexivity.
    - intros t s s' _ (Hoi & Hopt & ev0 & Hevs & HN) Hb.
      apply body_Ok in Hb as (eps & k & ex & g' & ev & r & npg' & Hb).
      destruct Hb as (_ & _ & Hev & _ & ->).
      unfold P. cbn [optimal_index self events].
      rewrite Hevs in Hev |- *.
      destruct k as [|k]; [|discriminate]. injection Hev as <-.
      split; [exact Hoi|]. split.
      + pose proof (tally_counters ex 0 (optimal_index s) (self s))
          as (_ & _ & ->).
        rewrite Hoi. cbn. lia.
      + eexists. split; [reflexivity|]. cbn [update N]. lia. }
  destruct HP as (Hoi & Hopt & ev & Hevs & HN).
  apply run_Ok in H as (_ & _ & Hn & _).
  split; [exact Hoi|]. split; [lia|]. exists ev. split; [exact Hevs | lia].
Qed.

Lemma Qltb_true (x y : Q) : x < y -> Qltb x y = true.
Proof. intros H. destruct (Qltb_spec x y); [reflexivity | lra]. Qed.

(** X16. When [initial_epsilon] is so large that epsilon is still at least
    1 at the last iteration, and every draw of [random.random()] lies in
    [0, 1), every iteration explores: [num_explored] advances by
    [iterations] and [num_exploited] stays as it was. *)
Theorem run_large_epsilon_always_explores
    (e : Experiment) (g : PyRng) (npg : NpRng) (out : RunState) :
  (forall s, 0 <= fst (random_random s) < 1) ->
  0.01 * inject_Z (iterations e - 1) + 1 <= initial_epsilon e ->
  run e g npg = Ok out ->
  num_exploited (self out) = num_exploited e /\
  Z.of_nat (num_explored (self out))
  = (Z.of_nat (num_explored e) + iterations e)%Z.
Proof.
  intros Hu Hbig H.
  set (P := fun (t : nat) (s : RunState) =>
              initial_epsilon (self s) = initial_epsilon e /\
              num_exploited (self s) = num_exploited e /\
              num_explored (self s) = (num_explored e + t)%nat).
  assert (HP : P (Z.to_nat (iterations e)) out).
  { apply (run_indexed_invariant P e g npg out H).
    - intros oi _ _. unfold P. cbn [self]. repeat split; lia.
    - intros t s s' Ht (He & Hx & Hy) Hb.
      apply body_Ok in Hb as (eps & k & ex & g' & ev & r & npg' & Hb).
      destruct Hb as (Heps & Hsel & _ & _ & ->).
      rewrite He, epsilon_func_Ok in Heps by lia. injection Heps as <-.
      assert (Hd : 1 <= 0.01 * inject_Z (Z.of_nat t) + 1)
        by (apply epsilon_func_denominator; lia).
      assert (Hle : inject_Z (Z.of_nat t) <= inject_Z (iterations e - 1))
        by (rewrite <- Zle_Qle; lia).
      unfold select in Hsel. specialize (Hu (py s)).
      destruct (random_random (py s)) as [u g1]. cbn [fst] in Hu.
      rewrite Qltb_true in Hsel.
      + destruct (random_choice (length (events s)) g1) as [k' g2].
        injection Hsel as -> <- <-. unfold P. cbn [self].
        pose proof (tally_config true k (optimal_index s) (self s))
          as (_ & -> & _).
        pose proof (tally_counters true k (optimal_index s) (self s))
          as (-> & -> & _).
        repeat split; try assumption; lia.
      + apply Qlt_shift_div_l; [lra|].
        assert (u * (0.01 * inject_Z (Z.of_nat t) + 1)
                < 1 * (0.01 * inject_Z (Z.of_nat t) + 1))
          by (apply Qmult_lt_compat_r; lra).
        lra. }
  destruct HP as (_ & Hx & Hy). apply run_Ok in H as (_ & _ & Hn & _).
  split; [exact Hx | lia].
Qed.


(** X18. With [iterations = 0] the loop is not entered: [run] completes
    without a draw from either generator, with the counters as they were,
    one new arm per probability and an empty [results]. *)
Theorem run_zero_iterations
    (e : Experiment) (g : PyRng) (npg : NpRng) :
  probs e <> [] -> iterations e = 0%Z ->
  exists oi,
    argmax (probs e) = Ok oi /\
    run e g npg
    = Ok {| self := e; optimal_index := oi;
            events := map RandomEvent_init (probs e);
            results := []; py := g; np := npg |}.
Proof.
  intros Hne Hz. destruct (argmax_nonempty _ Hne) as [oi Hoi].
  exists oi. split; [exact Hoi|].
  unfold run. rewrite Hoi, Hz. reflexivity.
Qed.

(** *** A longer run extends a shorter one *)

(** From states that agree up to [n1], an iteration before [n1] raises the
    same exception or leads to states that agree up to [n1] again. *)
Lemma body_lockstep (n1 t : nat) (s1 s2 : RunState) :
  (t < n1)%nat ->
  agree_upto n1 s1 s2 ->
  match body t s1, body t s2 with
  | Ok a, Ok b => agree_upto n1 a b
  | Raise x, Raise y => x = y
  | _, _ => False
  end.
Proof.
  intros Ht (Hp & He & Hx & Hy & Hz & Ho & Hev & Hpy & Hnp & Hr).
  rewrite !body_tally, <- He, <- Hev, <- Hpy, <- Hnp, <- Ho.
  destruct (epsilon_func (initial_epsilon (self s1)) (Z.of_nat t))
    as [epsilon|x]; cbn [bind]; [|reflexivity].
  destruct (select epsilon (events s1) (py s1)) as [[[k ex] g]|x];
    cbn [bind]; [|reflexivity].
  destruct (events s1 !! k) as [ev|]; [|reflexivity].
  destruct (pull ev (np s1)) as [[res ev1] npg].
  unfold agree_upto. cbn [self optimal_index events results py np].
  pose proof (tally_config ex k (optimal_index s1) (self s1)) as (-> & -> & _).
  pose proof (tally_config ex k (optimal_index s1) (self s2)) as (-> & -> & _).
  pose proof (tally_counters ex k (optimal_index s1) (self s1)) as (-> & -> & ->).
  pose proof (tally_counters ex k (optimal_index s1) (self s2)) as (-> & -> & ->).
  rewrite Hr, take_insert_lt by exact Ht.
  repeat split; try assumption; try reflexivity; lia.
Qed.

Lemma for_each_lockstep (n1 : nat) (ts : list nat) :
  Forall (fun t => (t < n1)%nat) ts ->
  forall s1 s2 a b : RunState,
    agree_upto n1 s1 s2 ->
    for_each body ts s1 = Ok a -> for_each body ts s2 = Ok b ->
    agree_upto n1 a b.
Proof.
  induction 1 as [|t ts Ht Hts IH]; intros s1 s2 a b Hs H1 H2; cbn in H1, H2.
  - injection H1 as <-. injection H2 as <-. exact Hs.
  - apply bind_Ok in H1 as (m1 & Hb1 & H1).
    apply bind_Ok in H2 as (m2 & Hb2 & H2).
    pose proof (body_lockstep n1 t s1 s2 Ht Hs) as Hb.
    rewrite Hb1, Hb2 in Hb. exact (IH m1 m2 a b Hb H1 H2).
Qed.

Lemma arm_extends_refl (a : RandomEvent) : arm_extends a a.
Proof. repeat split; [lia | reflexivity]. Qed.

Lemma arm_extends_update (a b : RandomEvent) (r : Q) :
  arm_extends a b -> arm_extends a (update r b).
Proof.
  intros (Hw & Hn & Hh). repeat split; cbn [update winrate N history].
  - exact Hw.
  - lia.
  - apply prefix_app_r, Hh.
Qed.

(** X19. Running longer only adds to a run. Of two experiments that differ
    in [iterations] alone, run from the same generator states, the longer
    run ends with counters at least as large, with arms whose pull counts
    are at least as large and whose histories start with the histories of
    the shorter run, and with a [results] that starts with the [results]
    of the shorter run. *)
Theorem run_longer_extends_shorter
    (e1 e2 : Experiment) (g : PyRng) (npg : NpRng) (o1 o2 : RunState) :
  probs e1 = probs e2 ->
  initial_epsilon e1 = initial_epsilon e2 ->
  num_explored e1 = num_explored e2 ->
  num_exploited e1 = num_exploited e2 ->
  num_optimal e1 = num_optimal e2 ->
  (iterations e1 <= iterations e2)%Z ->
  run e1 g npg = Ok o1 ->
  run e2 g npg = Ok o2 ->
  (num_explored (self o1) <= num_explored (self o2))%nat /\
  (num_exploited (self o1) <= num_exploited (self o2))%nat /\
  (num_optimal (self o1) <= num_optimal (self o2))%nat /\
  Forall2 arm_extends (events o1) (events o2) /\
  results o1 = take (length (results o1)) (results o2).
Proof.
  intros Hp He Hx Hy Hz Hle H1 H2.
  apply run_Ok in H1 as (oi1 & Hoi1 & Hn1 & Hloop1).
  apply run_Ok in H2 as (oi2 & Hoi2 & Hn2 & Hloop2).
  assert (oi2 = oi1) as -> by congruence.
  set (n1 := Z.to_nat (iterations e1)) in *.
  set (n2 := Z.to_nat (iterations e2)) in *.
  assert (Hn : (n1 <= n2)%nat) by (unfold n1, n2; lia).
  unfold range in Hloop1, Hloop2. fold n1 in Hloop1. fold n2 in Hloop2.
  replace n2 with (n1 + (n2 - n1))%nat in Hloop2 at 1 by lia.
  rewrite seq_app, for_each_app in Hloop2.
  apply bind_Ok in Hloop2 as (mid & Hmid & Hrest).
  assert (Hagree : agree_upto n1 o1 mid).
  { refine (for_each_lockstep n1 (seq 0 n1)
              (Forall_seq_lt n1) _ _ o1 mid _ Hloop1 Hmid).
    unfold agree_upto. cbn [self optimal_index events results py np].
    rewrite <- Hp, take_replicate, Nat.min_l by lia.
    repeat split; assumption || reflexivity. }
  destruct Hagree as (_ & _ & Ax & Ay & Az & _ & Aev & _ & _ & Ar).
  assert (Hlen1 : length (results o1) = n1).
  { apply (for_each_invariant body (fun s => length (results s) = n1))
      in Hloop1; [exact Hloop1 | | apply length_replicate].
    intros t s s' Hs Hb.
    apply body_Ok in Hb as (? & ? & ? & ? & ? & ? & ? & Hb).
    destruct Hb as (_ & _ & _ & _ & ->). cbn [results].
    rewrite length_insert. exact Hs. }
  rewrite Hlen1.
  set (P := fun (t : nat) (s : RunState) =>
              (num_explored (self o1) <= num_explored (self s))%nat /\
              (num_exploited (self o1) <= num_exploited (self s))%nat /\
              (num_optimal (self o1) <= num_optimal (self s))%nat /\
              Forall2 arm_extends (events o1) (events s) /\
              results o1 = take n1 (results s)).
  apply (for_each_seq_invariant body P (n2 - n1) (0 + n1)%nat mid o2);
    [| |exact Hrest].
  - intros t s s' Ht (Bx & By & Bz & Bev & Br) Hb.
    apply body_Ok in Hb as (eps & k & ex & g' & ev & r & npg' & Hb).
    destruct Hb as (_ & _ & Hev & _ & ->).
    unfold P. cbn [self events results].
    pose proof (tally_counters ex k (optimal_index s) (self s)) as (-> & -> & ->).
    split; [lia|]. split; [lia|]. split; [lia|]. split.
    + destruct (Forall2_lookup_r _ _ _ _ _ Bev Hev) as (a & Ha & Hext).
      rewrite <- (list_insert_id (events o1) k a Ha).
      apply Forall2_insert; [exact Bev | apply arm_extends_update, Hext].
    + rewrite take_insert_ge by lia. exact Br.
  - unfold P. rewrite Ax, Ay, Az, Aev.
    split; [lia|]. split; [lia|]. split; [lia|]. split; [|exact Ar].
    apply Forall_Forall2_diag, Forall_forall. intros a _. apply arm_extends_refl.
Qed.

End FurtherRunProperties.

(** ** The further properties on scripted runs *)

Lemma epsilon_func_raises_at_minus_100_only_witness :
  (Z.abs (-100) < 2 ^ 1023)%Z /\ (Z.abs (-99) < 2 ^ 1023)%Z /\
  epsilon_func 0.1 (-100) = Raise ZeroDivisionError /\
  epsilon_func 0.1 (-99) = Ok (0.1 / (0.01 * inject_Z (-99) + 1)).
Proof.
  assert (H1 : (Z.abs (-100) < 2 ^ 1023)%Z) by (vm_compute; reflexivity).
  assert (H2 : (Z.abs (-99) < 2 ^ 1023)%Z) by (vm_compute; reflexivity).
  split; [exact H1|]. split; [exact H2|]. split.
  - apply (proj1 (epsilon_func_raises_at_minus_100_only 0.1 (-100) H1)).
    reflexivity.
  - apply (proj2 (epsilon_func_raises_at_minus_100_only 0.1 (-99) H2)).
    discriminate.
Defined.

Lemma run_keeps_configuration_witness :
  script_run demo demo_py demo_np = Ok demo_out /\
  probs (self demo_out) = probs demo /\
  initial_epsilon (self demo_out) = initial_epsilon demo /\
  iterations (self demo_out) = iterations demo /\
  (num_explored demo <= num_explored (self demo_out))%nat /\
  (num_exploited demo <= num_exploited (self demo_out))%nat /\
  (num_optimal demo <= num_optimal (self demo_out))%nat.
Proof.
  split; [vm_compute; reflexivity|].
  apply (run_keeps_configuration script script
           script_uniform script_choice script_uniform
           demo demo_py demo_np demo_out).
  vm_compute; reflexivity.
Defined.

Lemma run_arms_match_probs_witness :
  script_run demo demo_py demo_np = Ok demo_out /\
  length (events demo_out) = length (probs demo) /\
  map winrate (events demo_out) = probs demo.
Proof.
  split; [vm_compute; reflexivity|].
  apply (run_arms_match_probs script script
           script_uniform script_choice script_uniform
           demo demo_py demo_np demo_out).
  vm_compute; reflexivity.
Defined.

Lemma run_results_are_binary_witness :
  script_run demo demo_py demo_np = Ok demo_out /\
  Z.of_nat (length (results demo_out)) = iterations demo /\
  Forall binary (results demo_out).
Proof.
  split; [vm_compute; reflexivity|].
  apply (run_results_are_binary script script
           script_uniform script_choice script_uniform
           demo demo_py demo_np demo_out).
  vm_compute; reflexivity.
Defined.

Lemma run_success_accounting_witness :
  script_run demo demo_py demo_np = Ok demo_out /\
  Qsum (results demo_out) == successes (events demo_out) /\
  ((0 < iterations demo)%Z ->
   0 <= mean (results demo_out) <= 1 /\
   mean (results demo_out)
   == successes (events demo_out) / inject_Z (iterations demo)).
Proof.
  split; [vm_compute; reflexivity|].
  apply (run_success_accounting script script
           script_uniform script_choice script_uniform
           demo demo_py demo_np demo_out).
  vm_compute; reflexivity.
Defined.

Lemma run_draws_numpy_once_per_iteration_witness :
  script_run demo demo_py demo_np = Ok demo_out /\
  np demo_out = advance script_uniform (Z.to_nat (iterations demo)) demo_np.
Proof.
  split; [vm_compute; reflexivity|].
  apply (run_draws_numpy_once_per_iteration script script
           script_uniform script_choice script_uniform
           demo demo_py demo_np demo_out).
  vm_compute; reflexivity.
Defined.

Lemma run_estimates_are_frequencies_witness :
  script_run demo demo_py demo_np = Ok demo_out /\
  events demo_out !! 2%nat = Some demo_arm /\
  0 <= estimate demo_arm <= 1 /\
  exists s : nat,
    (s <= N demo_arm)%nat /\
    estimate demo_arm * of_nat (N demo_arm) == of_nat s.
Proof.
  split; [vm_compute; reflexivity|]. split; [reflexivity|].
  apply (run_estimates_are_frequencies script script
           script_uniform script_choice script_uniform
           demo demo_py demo_np demo_out 2 demo_arm).
  - vm_compute; reflexivity.
  - reflexivity.
Defined.

Lemma run_history_ends_with_estimate_witness :
  script_run demo demo_py demo_np = Ok demo_out /\
  events demo_out !! 2%nat = Some demo_arm /\
  (N demo_arm = 0%nat -> demo_arm = RandomEvent_init (winrate demo_arm)) /\
  ((0 < N demo_arm)%nat ->
   last (history demo_arm) = Some (N demo_arm, estimate demo_arm)).
Proof.
  split; [vm_compute; reflexivity|]. split; [reflexivity|].
  apply (run_history_ends_with_estimate script script
           script_uniform script_choice script_uniform
           demo demo_py demo_np demo_out 2 demo_arm).
  - vm_compute; reflexivity.
  - reflexivity.
Defined.

Lemma run_sure_arms_are_estimated_exactly_witness :
  (forall s, 0 <= fst (script_uniform s) < 1) /\
  script_run demo_sure demo_py demo_np = Ok demo_sure_out /\
  events demo_sure_out !! 1%nat = Some demo_sure_arm /\
  (winrate demo_sure_arm <= 0 -> estimate demo_sure_arm == 0) /\
  (1 <= winrate demo_sure_arm -> (0 < N demo_sure_arm)%nat ->
   estimate demo_sure_arm == 1).
Proof.
  split; [exact script_uniform_range|].
  split; [vm_compute; reflexivity|]. split; [reflexivity|].
  apply (run_sure_arms_are_estimated_exactly script script
           script_uniform script_choice script_uniform
           demo_sure demo_py demo_np demo_sure_out 1 demo_sure_arm).
  - exact script_uniform_range.
  - vm_compute; reflexivity.
  - reflexivity.
Defined.

Lemma run_single_arm_is_always_optimal_witness :
  length (probs demo_single) = 1%nat /\
  script_run demo_single demo_py demo_np = Ok demo_single_out /\
  optimal_index demo_single_out = 0%nat /\
  Z.of_nat (num_optimal (self demo_single_out))
  = (Z.of_nat (num_optimal demo_single) + iterations demo_single)%Z /\
  exists ev,
    events demo_single_out = [ev] /\
    Z.of_nat (N ev) = iterations demo_single.
Proof.
  split; [reflexivity|]. split; [vm_compute; reflexivity|].
  apply (run_single_arm_is_always_optimal script script
           script_uniform script_choice script_uniform
           demo_single demo_py demo_np demo_single_out).
  - reflexivity.
  - vm_compute; reflexivity.
Defined.

Lemma run_large_epsilon_always_explores_witness :
  (forall s, 0 <= fst (script_uniform s) < 1) /\
  0.01 * inject_Z (iterations demo_eager - 1) + 1
  <= initial_epsilon demo_eager /\
  script_run demo_eager demo_py demo_np = Ok demo_eager_out /\
  num_exploited (self demo_eager_out) = num_exploited demo_eager /\
  Z.of_nat (num_explored (self demo_eager_out))
  = (Z.of_nat (num_explored demo_eager) + iterations demo_eager)%Z.
Proof.
  split; [exact script_uniform_range|].
  split; [vm_compute; discriminate|]. split; [vm_compute; reflexivity|].
  apply (run_large_epsilon_always_explores script script
           script_uniform script_choice script_uniform
           demo_eager demo_py demo_np demo_eager_out).
  - exact script_uniform_range.
  - vm_compute; discriminate.
  - vm_compute; reflexivity.
Defined.


Lemma run_zero_iterations_witness :
  probs demo_idle <> [] /\ iterations demo_idle = 0%Z /\
  exists oi,
    argmax (probs demo_idle) = Ok oi /\
    script_run demo_idle demo_py demo_np
    = Ok {| self := demo_idle; optimal_index := oi;
            events := map RandomEvent_init (probs demo_idle);
            results := []; py := demo_py; np := demo_np |}.
Proof.
  split; [discriminate|]. split; [reflexivity|].
  apply (run_zero_iterations script script
           script_uniform script_choice script_uniform
           demo_idle demo_py demo_np); [discriminate | reflexivity].
Defined.

Lemma run_longer_extends_shorter_witness :
  probs demo = probs demo_long /\
  initial_epsilon demo = initial_epsilon demo_long /\
  num_explored demo = num_explored demo_long /\
  num_exploited demo = num_exploited demo_long /\
  num_optimal demo = num_optimal demo_long /\
  (iterations demo <= iterations demo_long)%Z /\
  script_run demo demo_py demo_np = Ok demo_out /\
  script_run demo_long demo_py demo_np = Ok demo_long_out /\
  (num_explored (self demo_out) <= num_explored (self demo_long_out))%nat /\
  (num_exploited (self demo_out) <= num_exploited (self demo_long_out))%nat /\
  (num_optimal (self demo_out) <= num_optimal (self demo_long_out))%nat /\
  Forall2 arm_extends (events demo_out) (events demo_long_out) /\
  results demo_out
  = take (length (results demo_out)) (results demo_long_out).
Proof.
  do 5 (split; [reflexivity|]). split; [vm_compute; discriminate|].
  split; [vm_compute; reflexivity|]. split; [vm_compute; reflexivity|].
  apply (run_longer_extends_shorter script script
           script_uniform script_choice script_uniform
           demo demo_long demo_py demo_np demo_out demo_long_out);
    [reflexivity | reflexivity | reflexivity | reflexivity | reflexivity
     | vm_compute; discriminate | vm_compute; reflexivity
     | vm_compute; reflexivity].
Defined.
